(** * PubMed paper fetcher: a shallow embedding of [pubmed_fetcher.py] and
    [get_papers_list.py], and the properties of its pipeline.

    Text is a list of characters over the code points 0..255; on that
    alphabet the digit class of Python's [re] is exactly [0-9].  The
    standard-library pieces the program calls ([re.search], [re.findall],
    [csv.DictWriter], and the [csv.DictReader] that reads its files back) are
    modelled for the dialect and the pattern constructs the program uses. *)

From Stdlib Require Import Ascii String List Bool Arith ZArith Lia.
From stdpp Require Import gmap strings list.

Abbreviation str := (list ascii).

(** String literals of the source, as character lists. *)
Definition chars (s : string) : str := list_ascii_of_string s.

(* ===================================================================== *)
(** * Python built-ins used by the program                                *)
(* ===================================================================== *)

Module Py.

(** [s.startswith(p)] *)
Fixpoint startswith (p s : str) : bool :=
  match p, s with
  | [], _ => true
  | _ :: _, [] => false
  | a :: p', b :: s' => if Ascii.eqb a b then startswith p' s' else false
  end.

(** [needle in hay] on strings: literal, case-sensitive containment. *)
Fixpoint contains (needle hay : str) : bool :=
  if startswith needle hay then true
  else match hay with
       | [] => false
       | _ :: hay' => contains needle hay'
       end.

(** [sep.join(items)] *)
Fixpoint join (sep : str) (items : list str) : str :=
  match items with
  | [] => []
  | [x] => x
  | x :: rest => x ++ sep ++ join sep rest
  end.

(** [enumerate(l)], counting from [i]. *)
Fixpoint enumerate_from {A} (i : nat) (l : list A) : list (nat * A) :=
  match l with
  | [] => []
  | x :: l' => (i, x) :: enumerate_from (S i) l'
  end.

Definition enumerate {A} (l : list A) : list (nat * A) := enumerate_from 0 l.

(** Exceptions that the program can let escape. *)
Inductive exn :=
| ConnectionError   (* requests.get: transport failure *)
| HTTPError         (* raise_for_status: non-success status *)
| JSONDecodeError   (* response.json(): body is not JSON *)
| IndexError        (* papers[0] on an empty list *)
| CsvError.         (* csv.Error, raised by the csv reader *)

(** A computation that returns or raises. *)
Inductive outcome (A : Type) :=
| Ret (a : A)
| Raise (e : exn).
Arguments Ret {A} a.
Arguments Raise {A} e.

Definition bind {A B} (c : outcome A) (f : A -> outcome B) : outcome B :=
  match c with
  | Ret a => f a
  | Raise e => Raise e
  end.

End Py.

Import Py.

Notation "x <- c ;; k" := (bind c (fun x => k))
  (at level 100, c at next level, right associativity).

(* ===================================================================== *)
(** * The fragment of Python's [re] that the patterns use                 *)
(* ===================================================================== *)

Module Re.

(** Patterns: literal text, a character class repeated between [lo] and [hi]
    times (greedy or lazy), alternation, sequencing, and capture group 1. *)
Inductive regex :=
| Lit (s : str)
| Rep (cls : ascii -> bool) (lo : nat) (hi : option nat) (greedy : bool)
| Alt (r1 r2 : regex)
| Cat (r1 r2 : regex)
| Grp (r : regex).

Definition can_repeat (hi : option nat) : bool :=
  match hi with
  | Some 0 => false
  | _ => true
  end.

Definition dec_bound (hi : option nat) : option nat :=
  match hi with
  | Some n => Some (pred n)
  | None => None
  end.

(** Backtracking repetition: a greedy one tries to take one more character
    before it tries to stop, a lazy one the other way round. *)
Fixpoint rep {R} (cls : ascii -> bool) (greedy : bool) (lo : nat)
    (hi : option nat) (s : str) (k : str -> option R) : option R :=
  if greedy then
    match
      match s with
      | c :: s' =>
          if cls c && can_repeat hi
          then rep cls greedy (pred lo) (dec_bound hi) s' k
          else None
      | [] => None
      end
    with
    | Some x => Some x
    | None => match lo with 0 => k s | S _ => None end
    end
  else
    match match lo with 0 => k s | S _ => None end with
    | Some x => Some x
    | None =>
        match s with
        | c :: s' =>
            if cls c && can_repeat hi
            then rep cls greedy (pred lo) (dec_bound hi) s' k
            else None
        | [] => None
        end
    end.

(** The backtracking matcher, in continuation-passing style: [k] receives
    the current content of group 1 and the text that is left, and a [None]
    from it makes the matcher try its next choice. *)
Fixpoint run {R} (r : regex) (s : str) (cap : option str)
    (k : option str -> str -> option R) : option R :=
  match r with
  | Lit l => if startswith l s then k cap (drop (length l) s) else None
  | Rep cls lo hi g => rep cls g lo hi s (k cap)
  | Alt r1 r2 =>
      match run r1 s cap k with
      | Some x => Some x
      | None => run r2 s cap k
      end
  | Cat r1 r2 => run r1 s cap (fun cap' rest => run r2 rest cap' k)
  | Grp r1 =>
      run r1 s cap
        (fun _ rest => k (Some (take (length s - length rest) s)) rest)
  end.

(** A match object: [group(0)] and [group(1)] ([None] when group 1 took no
    part in the match). *)
Record match_obj := { group0 : str; group1 : option str }.

(** [pattern.match(s)]: a match that starts at the first character. *)
Definition match_at (r : regex) (s : str) : option match_obj :=
  run r s None
    (fun cap rest =>
       Some {| group0 := take (length s - length rest) s; group1 := cap |}).

(** [re.search(pattern, s)]: the match at the leftmost position that has one. *)
Fixpoint search (r : regex) (s : str) : option match_obj :=
  match match_at r s with
  | Some mt => Some mt
  | None =>
      match s with
      | [] => None
      | _ :: s' => search r s'
      end
  end.

(** [m.group(1)] as a string.  In every pattern of this program group 1 lies
    on each path through the pattern, so the default is never taken. *)
Definition group (mt : match_obj) : str := default [] (group1 mt).

(** [re.findall(pattern, s)] for a pattern with one group: group 1 of the
    successive non-overlapping matches, left to right.  [skip] counts the
    characters of the previous match still to step over.  (The patterns of
    this program never match the empty string.) *)
Fixpoint findall_from (r : regex) (skip : nat) (s : str) : list str :=
  match skip with
  | S n =>
      match s with
      | [] => []
      | _ :: s' => findall_from r n s'
      end
  | 0 =>
      match match_at r s with
      | Some mt =>
          group mt ::
          match s with
          | [] => []
          | _ :: s' => findall_from r (length (group0 mt) - 1) s'
          end
      | None =>
          match s with
          | [] => []
          | _ :: s' => findall_from r 0 s'
          end
      end
  end.

Definition findall (r : regex) (s : str) : list str := findall_from r 0 s.

(** Character classes. *)
Definition in_range (lo hi c : ascii) : bool :=
  (nat_of_ascii lo <=? nat_of_ascii c) && (nat_of_ascii c <=? nat_of_ascii hi).

Definition is_digit (c : ascii) : bool := in_range "0" "9" c.          (* \d *)
Definition is_alpha (c : ascii) : bool :=                              (* [A-Za-z] *)
  in_range "A" "Z" c || in_range "a" "z" c.
Definition is_dot (c : ascii) : bool := negb (Ascii.eqb c "010").      (* . *)
Definition is_local (c : ascii) : bool :=                              (* [a-zA-Z0-9._%+-] *)
  is_alpha c || is_digit c || existsb (Ascii.eqb c) (chars "._%+-").
Definition is_domain (c : ascii) : bool :=                             (* [a-zA-Z0-9.-] *)
  is_alpha c || is_digit c || existsb (Ascii.eqb c) (chars ".-").

(** ** What a pattern matches

    [Matches r w c c']: the pattern [r] matches exactly the text [w], taking
    the content of group 1 from [c] to [c']. *)
Definition within (hi : option nat) (n : nat) : Prop :=
  match hi with
  | Some h => n <= h
  | None => True
  end.

Inductive Matches : regex -> str -> option str -> option str -> Prop :=
| MLit l c : Matches (Lit l) l c c
| MRep cls lo hi g w c :
    forallb cls w = true -> lo <= length w -> within hi (length w) ->
    Matches (Rep cls lo hi g) w c c
| MAltL r1 r2 w c c' : Matches r1 w c c' -> Matches (Alt r1 r2) w c c'
| MAltR r1 r2 w c c' : Matches r2 w c c' -> Matches (Alt r1 r2) w c c'
| MCat r1 r2 w1 w2 c c1 c2 :
    Matches r1 w1 c c1 -> Matches r2 w2 c1 c2 ->
    Matches (Cat r1 r2) (w1 ++ w2) c c2
| MGrp r w c c' : Matches r w c c' -> Matches (Grp r) w c (Some w).

End Re.

Import Re.

(* ===================================================================== *)
(** * The excel dialect of Python's [csv]: writer and reader              *)
(* ===================================================================== *)

Module Csv.

Definition delimiter : ascii := ",".
Definition quotechar : ascii := "034".
Definition CR : ascii := "013".
Definition LF : ascii := "010".
Definition lineterminator : str := [CR; LF].

(** ** Writer ([QUOTE_MINIMAL], [doublequote], no escape character) *)

(** The characters that force a field into quotes. *)
Definition needs_quotes (c : ascii) : bool :=
  Ascii.eqb c delimiter || Ascii.eqb c quotechar
  || existsb (Ascii.eqb c) lineterminator.

Definition double_quotes (f : str) : str :=
  flat_map (fun c => if Ascii.eqb c quotechar then [quotechar; quotechar] else [c]) f.

Definition write_field (f : str) : str :=
  if existsb needs_quotes f
  then quotechar :: double_quotes f ++ [quotechar]
  else f.

(** [writer.writerow(fields)]: the text of one record.  A record that would
    come out empty (a single empty field) is written as a quoted empty field. *)
Definition writerow (fields : list str) : str :=
  match fields with
  | [[]] => [quotechar; quotechar] ++ lineterminator
  | _ => join [delimiter] (map write_field fields) ++ lineterminator
  end.

(** ** Reader *)

(** What the reader is fed: the characters of a line, then an end-of-line
    mark. *)
Inductive token := Chr (c : ascii) | EOL.

(** The parser states that can be reached without an escape character. *)
Inductive pstate :=
| START_RECORD | START_FIELD | IN_FIELD
| IN_QUOTED_FIELD | QUOTE_IN_QUOTED_FIELD | EAT_CRNL.

Record reader := { state : pstate; fields : list str; field : str }.

Definition parse_reset : reader :=
  {| state := START_RECORD; fields := []; field := [] |}.

Definition set_state (st : pstate) (rd : reader) : reader :=
  {| state := st; fields := fields rd; field := field rd |}.

Definition parse_save_field (rd : reader) : reader :=
  {| state := state rd; fields := fields rd ++ [field rd]; field := [] |}.

Definition parse_add_char (c : ascii) (rd : reader) : reader :=
  {| state := state rd; fields := fields rd; field := field rd ++ [c] |}.

Definition is_newline (c : ascii) : bool := Ascii.eqb c LF || Ascii.eqb c CR.

Definition start_field (rd : reader) (t : token) : outcome reader :=
  match t with
  | EOL => Ret (set_state START_RECORD (parse_save_field rd))
  | Chr c =>
      if is_newline c then Ret (set_state EAT_CRNL (parse_save_field rd))
      else if Ascii.eqb c quotechar then Ret (set_state IN_QUOTED_FIELD rd)
      else if Ascii.eqb c delimiter then Ret (parse_save_field rd)
      else Ret (set_state IN_FIELD (parse_add_char c rd))
  end.

(** [parse_process_char]: one step of the reader's state machine (not
    strict, no initial-space skipping). *)
Definition parse_process_char (rd : reader) (t : token) : outcome reader :=
  match state rd with
  | START_RECORD =>
      match t with
      | EOL => Ret rd
      | Chr c =>
          if is_newline c then Ret (set_state EAT_CRNL rd)
          else start_field (set_state START_FIELD rd) t
      end
  | START_FIELD => start_field rd t
  | IN_FIELD =>
      match t with
      | EOL => Ret (set_state START_RECORD (parse_save_field rd))
      | Chr c =>
          if is_newline c then Ret (set_state EAT_CRNL (parse_save_field rd))
          else if Ascii.eqb c delimiter
               then Ret (set_state START_FIELD (parse_save_field rd))
               else Ret (parse_add_char c rd)
      end
  | IN_QUOTED_FIELD =>
      match t with
      | EOL => Ret rd
      | Chr c =>
          if Ascii.eqb c quotechar then Ret (set_state QUOTE_IN_QUOTED_FIELD rd)
          else Ret (parse_add_char c rd)
      end
  | QUOTE_IN_QUOTED_FIELD =>
      match t with
      | EOL => Ret (set_state START_RECORD (parse_save_field rd))
      | Chr c =>
          if Ascii.eqb c quotechar
          then Ret (set_state IN_QUOTED_FIELD (parse_add_char c rd))
          else if Ascii.eqb c delimiter
               then Ret (set_state START_FIELD (parse_save_field rd))
               else if is_newline c
                    then Ret (set_state EAT_CRNL (parse_save_field rd))
                    else Ret (set_state IN_FIELD (parse_add_char c rd))
      end
  | EAT_CRNL =>
      match t with
      | EOL => Ret (set_state START_RECORD rd)
      | Chr c => if is_newline c then Ret rd else Raise CsvError
      end
  end.

(** Does a line end after [c], the rest of the text being [rest]?  A file
    opened with [newline=''] ends its lines at LF, at CR LF and at a lone CR,
    and hands them over untranslated. *)
Definition ends_line (c : ascii) (rest : str) : bool :=
  Ascii.eqb c LF
  || (Ascii.eqb c CR
      && match rest with
         | c' :: _ => negb (Ascii.eqb c' LF)
         | [] => true
         end).

(** Iterating over the file: its lines, line ends kept.  [cur] is the line
    being collected. *)
Fixpoint readlines_from (cur : str) (s : str) : list str :=
  match s with
  | [] => match cur with [] => [] | _ => [cur] end
  | c :: rest =>
      if ends_line c rest then (cur ++ [c]) :: readlines_from [] rest
      else readlines_from (cur ++ [c]) rest
  end.

Definition readlines (s : str) : list str := readlines_from [] s.

(** The reader processes the characters of a line and then the end-of-line
    mark. *)
Fixpoint feed (rd : reader) (ts : list token) : outcome reader :=
  match ts with
  | [] => Ret rd
  | t :: ts' => rd' <- parse_process_char rd t ;; feed rd' ts'
  end.

Definition feed_line (rd : reader) (line : str) : outcome reader :=
  feed rd (map Chr line ++ [EOL]).

(** The end of the input: a record that is under way (a field with
    characters, or an open quoted field) is completed as it stands. *)
Definition at_end (rd : reader) : list (list str) :=
  match field rd, state rd with
  | [], START_RECORD | [], START_FIELD | [], IN_FIELD
  | [], QUOTE_IN_QUOTED_FIELD | [], EAT_CRNL => []
  | _, _ => [fields (parse_save_field rd)]
  end.

(** [Reader_iternext], iterated: a record is complete when a line leaves the
    parser in [START_RECORD]. *)
Fixpoint read_records (rd : reader) (lines : list str) : outcome (list (list str)) :=
  match lines with
  | [] => Ret (at_end rd)
  | line :: lines' =>
      rd' <- feed_line rd line ;;
      match state rd' with
      | START_RECORD =>
          rows <- read_records parse_reset lines' ;;
          Ret (fields rd' :: rows)
      | _ => read_records rd' lines'
      end
  end.

(** [list(csv.reader(f))] *)
Definition reader_rows (content : str) : outcome (list (list str)) :=
  read_records parse_reset (readlines content).

(** A row of [csv.DictReader]: the values under the field names ([None]
    where the row is short) and, under the key [None], what a long row has
    beyond the field names. *)
Record dict_row := { items : list (str * option str); rest : option (list str) }.

Definition dict_of_row (fieldnames row : list str) : dict_row :=
  {| items :=
       combine fieldnames (map Some row)
       ++ map (fun key => (key, None)) (drop (length row) fieldnames);
     rest :=
       if length fieldnames <? length row
       then Some (drop (length fieldnames) row) else None |}.

(** [list(csv.DictReader(f))]: the first record gives the field names, empty
    records are skipped. *)
Definition DictReader (content : str) : outcome (list dict_row) :=
  rows <- reader_rows content ;;
  match rows with
  | [] => Ret []
  | fieldnames :: body =>
      Ret (map (dict_of_row fieldnames)
               (List.filter (fun row => negb (bool_decide (row = []))) body))
  end.

(** ** The reader over the characters of the file

    [scan] is [read_records] after [readlines] in one pass: it hands each
    character to the parser and, where a line ends, the end-of-line mark.
    [inline] tells whether the line under way has characters. *)
Fixpoint scan (rd : reader) (inline : bool) (s : str) : outcome (list (list str)) :=
  match s with
  | [] =>
      if inline then
        rd' <- parse_process_char rd EOL ;;
        match state rd' with
        | START_RECORD => Ret (fields rd' :: at_end parse_reset)
        | _ => Ret (at_end rd')
        end
      else Ret (at_end rd)
  | c :: rest =>
      rd' <- parse_process_char rd (Chr c) ;;
      if ends_line c rest then
        rd'' <- parse_process_char rd' EOL ;;
        match state rd'' with
        | START_RECORD =>
            rows <- scan parse_reset false rest ;;
            Ret (fields rd'' :: rows)
        | _ => scan rd'' false rest
        end
      else scan rd' true rest
  end.

End Csv.

(* ===================================================================== *)
(** * pubmed_fetcher.py                                                   *)
(* ===================================================================== *)

Definition PUBMED_API_URL : str :=
  chars "https://eutils.ncbi.nlm.nih.gov/entrez/eutils/esearch.fcgi".
Definition PUBMED_FETCH_URL : str :=
  chars "https://eutils.ncbi.nlm.nih.gov/entrez/eutils/efetch.fcgi".

Definition HEADERS : list (str * str) :=
  [(chars "User-Agent", chars "PubMedPaperFetcher/1.0")].

Definition NON_ACADEMIC_KEYWORDS : list str :=
  map chars ["Inc"; "Ltd"; "Pharmaceutical"; "Biotech"; "Corp"; "LLC"]%string.
Definition ACADEMIC_DOMAINS : list str :=
  map chars [".edu"; ".ac."; ".gov"]%string.

(** ** The outside world *)

(** A request parameter: a string or an integer. *)
Inductive param := PStr (s : str) | PInt (n : Z).

(** The decoded body of a search response, typed the way [fetch_paper_ids]
    reads it: an object of objects of identifier lists. *)
Abbreviation search_data := (gmap str (gmap str (list str))).

(** An HTTP response: whether [raise_for_status] passes, the body, and the
    body decoded as JSON ([None] when [response.json()] fails). *)
Record response := {
  status_ok : bool;
  text : str;
  json : option search_data
}.

(** What the program does not decide: the answers of the server to
    [requests.get(url, params, headers)], the order in which the interpreter
    iterates over a set of strings, and the [repr] of a record that [print]
    shows. *)
Record runtime := {
  requests_get : str -> list (str * param) -> list (str * str) -> outcome response;
  set_iter : gset str -> list str;
  repr : list (str * str) -> str
}.

Definition raise_for_status (r : response) : outcome unit :=
  if status_ok r then Ret tt else Raise HTTPError.

Definition response_json (r : response) : outcome search_data :=
  match json r with
  | Some data => Ret data
  | None => Raise JSONDecodeError
  end.

(** ** The patterns *)

Definition YEAR_RE : regex :=
  Cat (Lit (chars "<Year>"))
      (Cat (Grp (Rep is_digit 4 (Some 4) true)) (Lit (chars "</Year>"))).

Definition MONTH_RE : regex :=
  Cat (Lit (chars "<Month>"))
      (Cat (Grp (Alt (Rep is_alpha 1 None true) (Rep is_digit 1 (Some 2) true)))
           (Lit (chars "</Month>"))).

Definition DAY_RE : regex :=
  Cat (Lit (chars "<Day>"))
      (Cat (Grp (Rep is_digit 1 (Some 2) true)) (Lit (chars "</Day>"))).

(** [<tag>(.*?)</tag>] *)
Definition tag_re (tag : string) : regex :=
  Cat (Lit (chars "<" ++ chars tag ++ chars ">"))
      (Cat (Grp (Rep is_dot 0 None false))
           (Lit (chars "</" ++ chars tag ++ chars ">"))).

Definition TITLE_RE : regex := tag_re "ArticleTitle".
Definition AUTHOR_RE : regex := tag_re "Author".
Definition AFFILIATION_RE : regex := tag_re "Affiliation".

Definition EMAIL_RE : regex :=
  Grp (Cat (Rep is_local 1 None true)
      (Cat (Lit (chars "@"))
      (Cat (Rep is_domain 1 None true)
      (Cat (Lit (chars "."))
           (Rep is_alpha 2 None true))))).

(** ** [clean_publication_date] *)

Definition year_match (text : str) : option match_obj := search YEAR_RE text.
Definition month_match (text : str) : option match_obj := search MONTH_RE text.
Definition day_match (text : str) : option match_obj := search DAY_RE text.

Definition clean_publication_date (text : str) : str :=
  let year :=
    match year_match text with Some m => group m | None => chars "Unknown" end in
  let month :=
    match month_match text with Some m => group m | None => chars "Unknown" end in
  let day :=
    match day_match text with Some m => group m | None => [] end in
  match day with
  | _ :: _ => year ++ chars "-" ++ month ++ chars "-" ++ day
  | [] =>
      if bool_decide (month <> chars "Unknown")
      then year ++ chars "-" ++ month
      else year
  end.

(** ** [fetch_paper_ids] *)

Definition fetch_paper_ids (rt : runtime) (query : str) (max_results : Z)
    : outcome (list str) :=
  let params :=
    [(chars "db", PStr (chars "pubmed"));
     (chars "term", PStr query);
     (chars "retmode", PStr (chars "json"));
     (chars "retmax", PInt max_results)] in
  response <- requests_get rt PUBMED_API_URL params HEADERS ;;
  _ <- raise_for_status response ;;
  data <- response_json response ;;
  Ret (default [] (default ∅ (data !! chars "esearchresult") !! chars "idlist")).

(** ** [fetch_paper_details] *)

(** A record: the dictionary with the six keys that [fetch_paper_details]
    builds, in the order of its literal. *)
Record paper := {
  PubmedID : str;
  Title : str;
  Publication_Date : str;
  Non_academic_Authors : str;
  Company_Affiliations : str;
  Corresponding_Author_Email : str
}.

(** [paper.keys()] and [paper.values()] *)
Definition keys : list str :=
  map chars ["PubmedID"; "Title"; "Publication Date"; "Non-academic Author(s)";
             "Company Affiliation(s)"; "Corresponding Author Email"]%string.

Definition values (p : paper) : list str :=
  [PubmedID p; Title p; Publication_Date p; Non_academic_Authors p;
   Company_Affiliations p; Corresponding_Author_Email p].

(** The condition of the loop: [any(keyword in aff for keyword in ...)]. *)
Definition is_non_academic (aff : str) : bool :=
  existsb (fun keyword => contains keyword aff) NON_ACADEMIC_KEYWORDS.

(** [authors[i] if i < len(authors) else "Unknown"] *)
Definition author_at (authors : list str) (i : nat) : str :=
  if i <? length authors then nth i authors [] else chars "Unknown".

(** One turn of the loop over [enumerate(affiliations)], on the pair
    [(non_academic_authors, companies)]. *)
Definition classify_step (authors : list str) (acc : list str * gset str)
    (ia : nat * str) : list str * gset str :=
  let '(i, aff) := ia in
  if is_non_academic aff
  then (acc.1 ++ [author_at authors i], {[aff]} ∪ acc.2)
  else acc.

Definition classify (authors affiliations : list str) : list str * gset str :=
  fold_left (classify_step authors) (enumerate affiliations) ([], ∅).

(** The positions of the affiliations that the loop flags, in increasing
    order ([k] is the position of the first element). *)
Definition flagged_indices_from (k : nat) (affs : list str) : list nat :=
  List.filter (fun i => is_non_academic (nth (i - k) affs [])) (seq k (length affs)).

Definition flagged_indices (affs : list str) : list nat :=
  List.filter (fun i => is_non_academic (nth i affs [])) (seq 0 (length affs)).

Definition title_of (text : str) : str :=
  match search TITLE_RE text with Some m => group m | None => chars "N/A" end.

Definition authors_of (text : str) : list str := findall AUTHOR_RE text.
Definition affiliations_of (text : str) : list str := findall AFFILIATION_RE text.

Definition email_of (text : str) : str :=
  match search EMAIL_RE text with Some m => group0 m | None => chars "Not found" end.

(** The body of [fetch_paper_details] once the payload text is there. *)
Definition paper_of_text (rt : runtime) (paper_id text : str) : paper :=
  let title := title_of text in
  let publication_date := clean_publication_date text in
  let authors := authors_of text in
  let affiliations := affiliations_of text in
  let '(non_academic_authors, companies) := classify authors affiliations in
  let corresponding_email := email_of text in
  {| PubmedID := paper_id;
     Title := title;
     Publication_Date := publication_date;
     Non_academic_Authors :=
       match non_academic_authors with
       | _ :: _ => join (chars ", ") non_academic_authors
       | [] => chars "None"
       end;
     Company_Affiliations :=
       if bool_decide (companies <> ∅)
       then join (chars ", ") (set_iter rt companies)
       else chars "None";
     Corresponding_Author_Email := corresponding_email |}.

Definition fetch_paper_details (rt : runtime) (paper_id : str) : outcome paper :=
  let params :=
    [(chars "db", PStr (chars "pubmed"));
     (chars "id", PStr paper_id);
     (chars "retmode", PStr (chars "xml"))] in
  response <- requests_get rt PUBMED_FETCH_URL params HEADERS ;;
  _ <- raise_for_status response ;;
  Ret (paper_of_text rt paper_id (text response)).

(** ** [save_to_csv] *)

(** The files, by name, and what has been printed, one entry per [print]. *)
Record world := { files : gmap str str; stdout : list str }.

Definition write_file (filename content : str) (w : world) : world :=
  {| files := <[filename := content]> (files w); stdout := stdout w |}.

Definition print (line : str) (w : world) : world :=
  {| files := files w; stdout := stdout w ++ [line] |}.

(** [open(filename, "w")] empties the file, [papers[0]] fails on an empty
    list, and otherwise [DictWriter] writes the header and the rows. *)
Definition save_to_csv (papers : list paper) (filename : str) (w : world)
    : outcome unit * world :=
  let w := write_file filename [] w in
  match papers with
  | [] => (Raise IndexError, w)
  | _ :: _ =>
      let fieldnames := keys in
      let header := Csv.writerow fieldnames in
      let rows := flat_map (fun p => Csv.writerow (values p)) papers in
      (Ret tt, write_file filename (header ++ rows) w)
  end.

(** ** [get_papers] *)

(** The list comprehension: the records in turn, stopping at the first
    exception. *)
Fixpoint fetch_all (rt : runtime) (paper_ids : list str) : outcome (list paper) :=
  match paper_ids with
  | [] => Ret []
  | paper_id :: ids' =>
      p <- fetch_paper_details rt paper_id ;;
      ps <- fetch_all rt ids' ;;
      Ret (p :: ps)
  end.

Definition get_papers (rt : runtime) (query : str) (max_results : Z)
    : outcome (list paper) :=
  paper_ids <- fetch_paper_ids rt query max_results ;;
  fetch_all rt paper_ids.

(* ===================================================================== *)
(** * get_papers_list.py                                                  *)
(* ===================================================================== *)

(** The parsed command line: the query, [-d] and [-f]. *)
Record args := { query : str; debug : bool; file : option str }.

(** A record as the dictionary that [print] shows. *)
Definition as_dict (p : paper) : list (str * str) := combine keys (values p).

Fixpoint print_all (rt : runtime) (papers : list paper) (w : world) : world :=
  match papers with
  | [] => w
  | p :: ps => print_all rt ps (print (repr rt (as_dict p)) w)
  end.

Definition main (rt : runtime) (a : args) (w : world) : outcome unit * world :=
  let w :=
    if debug a then print (chars "Fetching papers for query: " ++ query a) w
    else w in
  match get_papers rt (query a) 10 with
  | Raise e => (Raise e, w)
  | Ret papers =>
      match file a with
      | Some (c :: f) =>
          let filename := c :: f in
          match save_to_csv papers filename w with
          | (Raise e, w) => (Raise e, w)
          | (Ret _, w) => (Ret tt, print (chars "Results saved to " ++ filename) w)
          end
      | _ => (Ret tt, print_all rt papers w)
      end
  end.

(** ** Runtimes for the examples *)

(** The server gives the same answer to every request; a set is iterated in
    the order of [elements]; a record is shown as its [key: value] pairs. *)
Definition static_runtime (answer : outcome response) : runtime :=
  {| requests_get := fun _ _ _ => answer;
     set_iter := elements;
     repr := fun d => join (chars ", ") (map (fun kv => kv.1 ++ chars ": " ++ kv.2) d) |}.

(** A successful response with the given body and decoded body. *)
Definition ok_response (body : str) (data : option search_data) : response :=
  {| status_ok := true; text := body; json := data |}.

(** A decoded search response [{"esearchresult": {"idlist": ids}}]. *)
Definition search_result (ids : list str) : search_data :=
  {[ chars "esearchresult" := {[ chars "idlist" := ids ]} ]}.

Definition offline : runtime := static_runtime (Raise ConnectionError).

(** The server answers the search request with [found] and the detail
    request for an identifier with [details] of it. *)
Definition routed_runtime (found : outcome response)
    (details : str -> outcome response) : runtime :=
  {| requests_get := fun url params _ =>
       if bool_decide (url = PUBMED_API_URL) then found
       else match params with
            | [_; (_, PStr paper_id); _] => details paper_id
            | _ => Raise ConnectionError
            end;
     set_iter := elements;
     repr := fun d => join (chars ", ") (map (fun kv => kv.1 ++ chars ": " ++ kv.2) d) |}.

(** A small run: two identifiers found, one payload for both. *)
Definition sample_body : str :=
  chars "<ArticleTitle>On cells</ArticleTitle><Affiliation>Moderna Inc</Affiliation>".

Definition sample_ids : list str := [chars "31452104"; chars "30049270"].

Definition sample_runtime : runtime :=
  static_runtime (Ret (ok_response sample_body (Some (search_result sample_ids)))).

Definition sample_papers : list paper :=
  map (fun paper_id => paper_of_text sample_runtime paper_id sample_body) sample_ids.

(** The same search, but the detail request for the second identifier is
    answered with a failure status. *)
Definition flaky_runtime : runtime :=
  routed_runtime (Ret (ok_response [] (Some (search_result sample_ids))))
    (fun paper_id =>
       if bool_decide (paper_id = chars "30049270")
       then Ret {| status_ok := false; text := []; json := None |}
       else Ret (ok_response sample_body None)).

Definition empty_world : world := {| files := ∅; stdout := [] |}.

(* ===================================================================== *)
(** * Properties                                                          *)
(* ===================================================================== *)

(** ** Strings *)

Lemma startswith_spec (p s : str) :
  startswith p s = true <-> exists post, s = p ++ post.
Proof.
  revert s; induction p as [|a p IH]; intros s; simpl.
  - split; eauto.
  - destruct s as [|b s]; simpl.
    + split; [discriminate | intros [post H]; discriminate].
    + destruct (Ascii.eqb_spec a b) as [->|Hne].
      * rewrite IH. split; intros [post H]; exists post; congruence.
      * split; [discriminate | intros [post H]; congruence].
Qed.

Lemma startswith_app (p post : str) : startswith p (p ++ post) = true.
Proof. apply startswith_spec; eauto. Qed.

Lemma contains_spec (needle hay : str) :
  contains needle hay = true <-> exists pre post, hay = pre ++ needle ++ post.
Proof.
  induction hay as [|c hay IH]; simpl.
  - destruct (startswith needle []) eqn:E.
    + apply startswith_spec in E as [post E]. split; [|done].
      intros _. exists [], post. done.
    + split; [discriminate|]. intros (pre & post & H).
      destruct pre; simpl in H.
      * rewrite H, startswith_app in E. discriminate.
      * discriminate.
  - destruct (startswith needle (c :: hay)) eqn:E.
    + apply startswith_spec in E as [post E]. split; [|done].
      intros _. exists [], post. done.
    + rewrite IH. split.
      * intros (pre & post & ->). exists (c :: pre), post. done.
      * intros (pre & post & H). destruct pre as [|c' pre]; simpl in H.
        -- rewrite H, startswith_app in E. discriminate.
        -- injection H as -> ->. eauto.
Qed.

Lemma contains_false (needle hay pre post : str) :
  contains needle hay = false -> hay <> pre ++ needle ++ post.
Proof.
  intros Hc ->. assert (contains needle (pre ++ needle ++ post) = true) as E
    by (apply contains_spec; eauto).
  congruence.
Qed.

(** ** The classifier *)

Lemma is_non_academic_spec (aff : str) :
  is_non_academic aff = true <->
  exists keyword pre post,
    In keyword NON_ACADEMIC_KEYWORDS /\ aff = pre ++ keyword ++ post.
Proof.
  unfold is_non_academic. rewrite existsb_exists. split.
  - intros (kw & Hin & Hc). apply contains_spec in Hc as (pre & post & ->).
    eauto 6.
  - intros (kw & pre & post & Hin & ->). exists kw. split; [done|].
    apply contains_spec. eauto.
Qed.

Lemma author_at_lookup (authors : list str) (i : nat) :
  author_at authors i = default (chars "Unknown") (authors !! i).
Proof.
  unfold author_at. destruct (Nat.ltb_spec i (length authors)) as [Hlt|Hge].
  - destruct (lookup_lt_is_Some_2 authors i Hlt) as [a Ha]. rewrite Ha. simpl.
    apply nth_lookup_Some with (d := []) in Ha. done.
  - rewrite lookup_ge_None_2 by lia. done.
Qed.

Lemma flagged_indices_cons (k : nat) (aff : str) (affs : list str) :
  flagged_indices_from k (aff :: affs) =
  (if is_non_academic aff then [k] else []) ++ flagged_indices_from (S k) affs.
Proof.
  unfold flagged_indices_from.
  change (seq k (length (aff :: affs))) with (k :: seq (S k) (length affs)).
  cbn [List.filter]. rewrite Nat.sub_diag. cbn [nth].
  rewrite (List.filter_ext_in
             (fun i => is_non_academic (nth (i - k) (aff :: affs) []))
             (fun i => is_non_academic (nth (i - S k) affs []))).
  - destruct (is_non_academic aff); done.
  - intros i Hi. apply in_seq in Hi.
    replace (i - k) with (S (i - S k)) by lia. done.
Qed.

Lemma flagged_indices_from_0 (affs : list str) :
  flagged_indices_from 0 affs = flagged_indices affs.
Proof.
  unfold flagged_indices_from, flagged_indices.
  apply List.filter_ext. intros i. by rewrite Nat.sub_0_r.
Qed.

Lemma flagged_indices_bound (affs : list str) (i : nat) :
  In i (flagged_indices affs) -> i < length affs.
Proof.
  unfold flagged_indices. rewrite List.filter_In, in_seq. lia.
Qed.

(** The loop, from any position and any accumulator. *)
Lemma classify_fold (authors affs : list str) (k : nat) (na : list str)
    (comp : gset str) :
  fold_left (classify_step authors) (enumerate_from k affs) (na, comp) =
  (na ++ map (author_at authors) (flagged_indices_from k affs),
   list_to_set (List.filter is_non_academic affs) ∪ comp).
Proof.
  revert k na comp. induction affs as [|aff affs IH]; intros k na comp.
  - simpl. unfold flagged_indices_from. simpl. rewrite app_nil_r.
    f_equal. set_solver.
  - rewrite flagged_indices_cons. simpl. destruct (is_non_academic aff) eqn:E.
    + rewrite IH. simpl. rewrite <- app_assoc. simpl. f_equal. set_solver.
    + rewrite IH. simpl. done.
Qed.

Lemma classify_spec (authors affs : list str) :
  classify authors affs =
  (map (author_at authors) (flagged_indices affs),
   list_to_set (List.filter is_non_academic affs)).
Proof.
  unfold classify, enumerate. rewrite classify_fold, flagged_indices_from_0.
  simpl. f_equal. set_solver.
Qed.

Lemma elem_of_companies (authors affs : list str) (aff : str) :
  aff ∈ (classify authors affs).2 <-> In aff affs /\ is_non_academic aff = true.
Proof.
  rewrite classify_spec. simpl. rewrite elem_of_list_to_set, list_elem_of_In.
  apply List.filter_In.
Qed.

(** C1.  The classifier flags exactly the affiliations that contain one of
    the industry keywords as a literal substring: the flagged positions, in
    order, contribute the author at that position (or "Unknown") to
    [non_academic_authors], and [companies] holds exactly the flagged
    affiliation strings; an affiliation without a keyword contributes to
    neither. *)
Theorem C1_classifier_flags_exactly (authors affiliations : list str) :
  (forall aff,
      is_non_academic aff = true <->
      exists keyword pre post,
        In keyword NON_ACADEMIC_KEYWORDS /\ aff = pre ++ keyword ++ post)
  /\ (classify authors affiliations).1 =
     map (fun i => default (chars "Unknown") (authors !! i))
         (flagged_indices affiliations)
  /\ (forall i,
         In i (flagged_indices affiliations) <->
         exists aff, affiliations !! i = Some aff /\ is_non_academic aff = true)
  /\ (forall aff,
         aff ∈ (classify authors affiliations).2 <->
         In aff affiliations /\ is_non_academic aff = true).
Proof.
  split; [exact is_non_academic_spec|]. split; [|split].
  - rewrite classify_spec. simpl. apply map_ext. apply author_at_lookup.
  - intros i. unfold flagged_indices. rewrite List.filter_In, in_seq. split.
    + intros [Hi Hf]. destruct (lookup_lt_is_Some_2 affiliations i) as [aff Ha]; [lia|].
      exists aff. split; [done|].
      by rewrite (nth_lookup_Some _ _ [] _ Ha) in Hf.
    + intros (aff & Ha & Hf). pose proof (lookup_lt_Some _ _ _ Ha).
      rewrite (nth_lookup_Some _ _ [] _ Ha). split; [lia|done].
  - apply elem_of_companies.
Qed.

Example classifier_moderna :
  classify [chars "Ann"; chars "Bob"; chars "Cy"]
           [chars "Stanford University"; chars "MIT"; chars "Moderna Inc"] =
  ([chars "Cy"], {[chars "Moderna Inc"]}).
Proof. rewrite classify_spec. vm_compute flagged_indices. simpl. f_equal. Qed.

Lemma enumerate_from_app {A} (k : nat) (l1 l2 : list A) :
  enumerate_from k (l1 ++ l2) =
  enumerate_from k l1 ++ enumerate_from (k + length l1) l2.
Proof.
  revert k; induction l1 as [|x l1 IH]; intros k; simpl.
  - by rewrite Nat.add_0_r.
  - rewrite IH. do 3 f_equal. lia.
Qed.

(** Past the last author, a flagged affiliation adds the placeholder. *)
Lemma classify_fold_beyond (authors affs : list str) (k : nat) (na : list str)
    (comp : gset str) :
  length authors <= k ->
  fold_left (classify_step authors) (enumerate_from k affs) (na, comp) =
  (na ++ map (fun _ => chars "Unknown") (List.filter is_non_academic affs),
   list_to_set (List.filter is_non_academic affs) ∪ comp).
Proof.
  revert k na comp. induction affs as [|aff affs IH]; intros k na comp Hk.
  - simpl. rewrite app_nil_r. f_equal. set_solver.
  - simpl. destruct (is_non_academic aff) eqn:E.
    + rewrite IH by lia. simpl. rewrite <- app_assoc. simpl.
      unfold author_at. destruct (Nat.ltb_spec k (length authors)); [lia|].
      f_equal. set_solver.
    + by rewrite IH by lia.
Qed.

Lemma classify_extra_affiliations (authors affs : list str) :
  classify authors affs =
  (let '(na, comp) := classify authors (take (length authors) affs) in
   let extra := List.filter is_non_academic (drop (length authors) affs) in
   (na ++ map (fun _ => chars "Unknown") extra, list_to_set extra ∪ comp)).
Proof.
  destruct (classify authors (take (length authors) affs)) as [na comp] eqn:E.
  rewrite <- (take_drop (length authors) affs) at 1.
  unfold classify, enumerate in *. rewrite enumerate_from_app, fold_left_app, E.
  destruct (Nat.le_gt_cases (length authors) (length affs)) as [Hle|Hgt].
  - apply classify_fold_beyond. rewrite length_take. lia.
  - rewrite drop_ge by lia. simpl. rewrite app_nil_r. f_equal. set_solver.
Qed.

Lemma classify_extra_authors (authors affs : list str) :
  classify authors affs = classify (take (length affs) authors) affs.
Proof.
  rewrite !classify_spec. f_equal. apply map_ext_in. intros i Hi.
  apply flagged_indices_bound in Hi. rewrite !author_at_lookup.
  by rewrite lookup_take_lt.
Qed.

Lemma classify_authors_real (authors affs : list str) :
  length affs <= length authors ->
  Forall (fun a => In a authors) (classify authors affs).1.
Proof.
  intros Hle. rewrite classify_spec. simpl. apply Forall_forall.
  intros a Ha. apply list_elem_of_In, in_map_iff in Ha as (i & <- & Hi).
  apply flagged_indices_bound in Hi. unfold author_at.
  destruct (Nat.ltb_spec i (length authors)); [|lia].
  apply nth_In. done.
Qed.

(** C3 (as amended).  The loop runs over the affiliations.  An affiliation at
    a position past the last author is still classified: when flagged it adds
    the placeholder "Unknown" to [non_academic_authors] and itself to
    [companies].  Authors past the last affiliation are ignored: the result
    is that of the authors cut to the number of affiliations, and within the
    first [len(authors)] affiliations every reported author is one of the
    authors, no placeholder. *)
Theorem C3_pairing_of_unequal_lists (authors affiliations : list str) :
  classify authors affiliations =
    (let '(na, comp) := classify authors (take (length authors) affiliations) in
     let extra :=
       List.filter is_non_academic (drop (length authors) affiliations) in
     (na ++ map (fun _ => chars "Unknown") extra, list_to_set extra ∪ comp))
  /\ classify authors affiliations =
     classify (take (length affiliations) authors) affiliations
  /\ Forall (fun a => In a authors)
       (classify authors (take (length authors) affiliations)).1.
Proof.
  split; [apply classify_extra_affiliations|].
  split; [apply classify_extra_authors|].
  apply classify_authors_real. rewrite length_take. lia.
Qed.

(** C3 fails as stated: an affiliation with no author at its position is not
    ignored (it yields the placeholder and a company), and an author with no
    affiliation yields no placeholder. *)
Lemma C3_counterexample :
  length [chars "Alice"] < length [chars "Stanford University"; chars "Moderna Inc"]
  /\ classify [chars "Alice"] [chars "Stanford University"; chars "Moderna Inc"]
     = ([chars "Unknown"], {[chars "Moderna Inc"]})
  /\ classify [chars "Alice"] [chars "Stanford University"; chars "Moderna Inc"]
     <> classify [chars "Alice"]
          (take (length [chars "Alice"])
                [chars "Stanford University"; chars "Moderna Inc"])
  /\ length [chars "Acme Inc"] < length [chars "Ann"; chars "Bob"]
  /\ classify [chars "Ann"; chars "Bob"] [chars "Acme Inc"]
     = ([chars "Ann"], {[chars "Acme Inc"]}).
Proof.
  split; [simpl; lia|]. split; [|split; [|split]].
  - rewrite classify_spec. vm_compute. reflexivity.
  - intros H. apply (f_equal fst) in H. rewrite !classify_spec in H.
    vm_compute in H. discriminate.
  - simpl; lia.
  - rewrite classify_spec. vm_compute. reflexivity.
Qed.

(** ** The record *)

Lemma set_iter_nil (rt : runtime) (s : gset str) :
  (forall s, Permutation (set_iter rt s) (elements s)) ->
  set_iter rt s = [] <-> s = ∅.
Proof.
  intros Hperm. split.
  - intros E. apply leibniz_equiv, elements_empty_inv. specialize (Hperm s). rewrite E in Hperm.
    apply Permutation_nil in Hperm. by rewrite Hperm.
  - intros ->. specialize (Hperm ∅). rewrite elements_empty in Hperm.
    by apply Permutation_nil_r.
Qed.

(** C10.  The Company Affiliation(s) field joins a duplicate-free list of
    strings, each of which contains an industry keyword and is one of the
    affiliations extracted from the payload (and every such affiliation is
    in the list); when no affiliation matches, both the Non-academic
    Author(s) and the Company Affiliation(s) fields are "None". *)
Theorem C10_company_field (rt : runtime) (paper_id text : str) :
  (forall s, Permutation (set_iter rt s) (elements s)) ->
  (exists cs,
      NoDup cs
      /\ (forall c,
             In c cs <->
             In c (affiliations_of text)
             /\ exists keyword, In keyword NON_ACADEMIC_KEYWORDS
                                /\ contains keyword c = true)
      /\ Company_Affiliations (paper_of_text rt paper_id text) =
         match cs with
         | [] => chars "None"
         | _ :: _ => join (chars ", ") cs
         end)
  /\ (Forall (fun aff => is_non_academic aff = false) (affiliations_of text) ->
      Non_academic_Authors (paper_of_text rt paper_id text) = chars "None"
      /\ Company_Affiliations (paper_of_text rt paper_id text) = chars "None").
Proof.
  intros Hperm. unfold paper_of_text.
  rewrite classify_spec. cbn [Company_Affiliations Non_academic_Authors].
  set (comp := list_to_set (List.filter is_non_academic (affiliations_of text)) : gset str).
  split.
  - exists (set_iter rt comp). split; [|split].
    + rewrite (Hperm comp). apply NoDup_elements.
    + intros c. rewrite <- list_elem_of_In, (Hperm comp), elem_of_elements.
      unfold comp. rewrite elem_of_list_to_set, list_elem_of_In, List.filter_In.
      unfold is_non_academic. rewrite existsb_exists. done.
    + case_bool_decide as Hc.
      * destruct (set_iter rt comp) eqn:E; [|done].
        apply set_iter_nil in E; done.
      * apply (set_iter_nil rt) in Hc; [|done].
        by rewrite Hc.
  - intros Hall.
    assert (Hnil : List.filter is_non_academic (affiliations_of text) = []).
    { induction Hall as [|a l Ha _ IH]; simpl; [done|]. by rewrite Ha. }
    assert (Hidx : flagged_indices (affiliations_of text) = []).
    { unfold flagged_indices.
      destruct (List.filter _ (seq 0 _)) as [|i l] eqn:E; [done|].
      assert (Hi : In i (i :: l)) by (left; done). rewrite <- E in Hi.
      apply List.filter_In in Hi as [Hi Hf]. apply in_seq in Hi.
      rewrite Forall_forall in Hall.
      rewrite (Hall (nth i (affiliations_of text) [])) in Hf; [done|].
      apply list_elem_of_In, nth_In. lia. }
    rewrite Hidx. simpl. unfold comp. rewrite Hnil. simpl.
    split; [done|]. by rewrite bool_decide_false by (intros H; by apply H).
Qed.

Lemma C10_company_field_witness :
  (exists cs,
      NoDup cs
      /\ (forall c,
             In c cs <->
             In c (affiliations_of (chars "<Affiliation>Moderna Inc</Affiliation>"))
             /\ exists keyword, In keyword NON_ACADEMIC_KEYWORDS
                                /\ contains keyword c = true)
      /\ Company_Affiliations
           (paper_of_text offline (chars "1")
              (chars "<Affiliation>Moderna Inc</Affiliation>")) =
         match cs with
         | [] => chars "None"
         | _ :: _ => join (chars ", ") cs
         end)
  /\ (Forall (fun aff => is_non_academic aff = false)
        (affiliations_of (chars "<Affiliation>Moderna Inc</Affiliation>")) ->
      Non_academic_Authors
        (paper_of_text offline (chars "1")
           (chars "<Affiliation>Moderna Inc</Affiliation>")) = chars "None"
      /\ Company_Affiliations
           (paper_of_text offline (chars "1")
              (chars "<Affiliation>Moderna Inc</Affiliation>")) = chars "None").
Proof.
  apply (C10_company_field offline (chars "1")
           (chars "<Affiliation>Moderna Inc</Affiliation>")).
  intros s. simpl. reflexivity.
Defined.

(** ** The matcher against the declarative reading of a pattern *)

Lemma within_dec_bound (hi : option nat) (n : nat) :
  can_repeat hi = true -> within (dec_bound hi) n -> within hi (S n).
Proof. destruct hi as [[|h]|]; simpl; intros; try done; lia. Qed.

Lemma within_S (hi : option nat) (n : nat) :
  within hi (S n) -> can_repeat hi = true /\ within (dec_bound hi) n.
Proof. destruct hi as [[|h]|]; simpl; intros; split; try done; lia. Qed.

Lemma rep_sound {R} cls g lo hi (s : str) (k : str -> option R) x :
  rep cls g lo hi s k = Some x ->
  exists w rest,
    s = w ++ rest /\ forallb cls w = true /\ lo <= length w
    /\ within hi (length w) /\ k rest = Some x.
Proof.
  assert (Hstop : forall s lo,
             match lo with 0 => k s | S _ => None end = Some x ->
             exists w rest, s = w ++ rest /\ forallb cls w = true
                            /\ lo <= length w /\ within hi (length w)
                            /\ k rest = Some x).
  { intros s0 [|lo0] H; [|done]. exists [], s0. repeat split; try done.
    destruct hi; simpl; lia. }
  revert lo hi Hstop. induction s as [|c s IH]; intros lo hi Hstop Hrep.
  - simpl in Hrep. destruct g; simpl in Hrep.
    + by apply Hstop.
    + destruct (match lo with 0 => k [] | S _ => None end) eqn:E; [|done].
      apply Hstop. congruence.
  - assert (Hmore : (if cls c && can_repeat hi
                     then rep cls g (pred lo) (dec_bound hi) s k else None) = Some x ->
             exists w rest, c :: s = w ++ rest /\ forallb cls w = true
                            /\ lo <= length w /\ within hi (length w)
                            /\ k rest = Some x).
    { destruct (cls c) eqn:Ec; [|done]. destruct (can_repeat hi) eqn:Eh; [|done].
      simpl. intros H. apply IH in H as (w & rest & -> & Hw & Hlo & Hhi & Hk).
      - exists (c :: w), rest. simpl. rewrite Ec, Hw.
        repeat split; try done; [lia|]. by apply within_dec_bound.
      - intros s0 [|lo0] H0; [|done]. exists [], s0. repeat split; try done.
        destruct (dec_bound hi); simpl; lia. }
    simpl in Hrep. destruct g.
    + destruct (if cls c && can_repeat hi then _ else None) eqn:E.
      * apply Hmore. congruence.
      * by apply Hstop.
    + destruct (match lo with 0 => k (c :: s) | S _ => None end) eqn:E.
      * apply Hstop. congruence.
      * by apply Hmore.
Qed.

Lemma rep_complete {R} cls g lo hi (s : str) (k : str -> option R) :
  rep cls g lo hi s k = None ->
  forall w rest,
    s = w ++ rest -> forallb cls w = true -> lo <= length w ->
    within hi (length w) -> k rest = None.
Proof.
  intros Hrep w. revert s lo hi Hrep.
  induction w as [|c w IH]; intros s lo hi Hrep rest -> Hw Hlo Hhi.
  - simpl in Hlo. assert (lo = 0) as -> by lia. simpl in Hrep.
    destruct rest as [|c rest]; simpl in Hrep; destruct g.
    + done.
    + by destruct (k []).
    + by destruct (if cls c && can_repeat hi then _ else None).
    + by destruct (k (c :: rest)).
  - simpl in Hw. apply andb_prop in Hw as [Hc Hw].
    apply within_S in Hhi as [Hcr Hhi]. simpl in Hrep. rewrite Hc, Hcr in Hrep.
    simpl in Hrep.
    apply (IH (w ++ rest) (pred lo) (dec_bound hi)); try done; [|simpl in Hlo; lia].
    destruct g.
    + by destruct (rep cls true (pred lo) (dec_bound hi) (w ++ rest) k).
    + by destruct (match lo with 0 => k (c :: w ++ rest) | S _ => None end).
Qed.

Lemma take_consumed (w rest : str) :
  take (length (w ++ rest) - length rest) (w ++ rest) = w.
Proof.
  rewrite length_app. replace (length w + length rest - length rest) with (length w) by lia.
  by rewrite take_app_length.
Qed.

Lemma run_sound {R} (r : regex) (s : str) cap (k : option str -> str -> option R) x :
  run r s cap k = Some x ->
  exists w rest cap',
    s = w ++ rest /\ Matches r w cap cap' /\ k cap' rest = Some x.
Proof.
  revert s cap k. induction r as [l|cls lo hi g|r1 IH1 r2 IH2|r1 IH1 r2 IH2|r IH];
    intros s cap k Hrun; simpl in Hrun.
  - destruct (startswith l s) eqn:E; [|done].
    apply startswith_spec in E as [post ->]. rewrite drop_app_length in Hrun.
    exists l, post, cap. repeat split; [constructor|done].
  - apply rep_sound in Hrun as (w & rest & -> & Hw & Hlo & Hhi & Hk).
    exists w, rest, cap. repeat split; [by constructor|done].
  - destruct (run r1 s cap k) eqn:E.
    + injection Hrun as ->. apply IH1 in E as (w & rest & cap' & -> & Hm & Hk).
      exists w, rest, cap'. repeat split; [by apply MAltL|done].
    + apply IH2 in Hrun as (w & rest & cap' & -> & Hm & Hk).
      exists w, rest, cap'. repeat split; [by apply MAltR|done].
  - apply IH1 in Hrun as (w1 & rest1 & c1 & -> & Hm1 & Hk1).
    apply IH2 in Hk1 as (w2 & rest & c2 & -> & Hm2 & Hk).
    exists (w1 ++ w2), rest, c2. rewrite <- app_assoc.
    repeat split; [by econstructor|done].
  - apply IH in Hrun as (w & rest & c' & -> & Hm & Hk).
    rewrite take_consumed in Hk.
    exists w, rest, (Some w). repeat split; [by econstructor|done].
Qed.

Lemma run_complete {R} (r : regex) (s : str) cap (k : option str -> str -> option R) :
  run r s cap k = None ->
  forall w rest cap',
    s = w ++ rest -> Matches r w cap cap' -> k cap' rest = None.
Proof.
  intros Hrun w rest cap' Hs Hm. revert R s k rest Hs Hrun.
  induction Hm as [l c|cls lo hi g w c Hw Hlo Hhi|r1 r2 w c c' Hm IH
                  |r1 r2 w c c' Hm IH|r1 r2 w1 w2 c c1 c2 Hm1 IH1 Hm2 IH2
                  |r w c c' Hm IH];
    intros R s k rest -> Hrun; simpl in Hrun.
  - rewrite startswith_app, drop_app_length in Hrun. done.
  - by eapply rep_complete.
  - destruct (run r1 (w ++ rest) c k) eqn:E; [done|]. by eapply IH.
  - destruct (run r1 (w ++ rest) c k) eqn:E; [done|]. by eapply IH.
  - rewrite <- app_assoc in Hrun.
    apply (IH2 R (w2 ++ rest) k rest); [done|].
    by apply (IH1 R (w1 ++ w2 ++ rest)
                (fun cap' rest0 => run r2 rest0 cap' k) (w2 ++ rest)).
  - apply (IH _ _ _ rest) in Hrun; [|done]. cbv beta in Hrun.
    by rewrite take_consumed in Hrun.
Qed.

Lemma match_at_sound (r : regex) (s : str) (mt : match_obj) :
  match_at r s = Some mt ->
  exists rest, s = group0 mt ++ rest /\ Matches r (group0 mt) None (group1 mt).
Proof.
  unfold match_at. intros H.
  apply run_sound in H as (w & rest & cap & -> & Hm & Hk).
  rewrite take_consumed in Hk. injection Hk as <-. simpl. eauto.
Qed.

Lemma match_at_none (r : regex) (s : str) :
  match_at r s = None ->
  forall w rest cap, s = w ++ rest -> ~ Matches r w None cap.
Proof.
  unfold match_at. intros H w rest cap Hs Hm.
  by pose proof (run_complete _ _ _ _ H w rest cap Hs Hm).
Qed.

Lemma search_sound (r : regex) (s : str) (mt : match_obj) :
  search r s = Some mt ->
  exists pre post,
    s = pre ++ group0 mt ++ post /\ Matches r (group0 mt) None (group1 mt).
Proof.
  induction s as [|c s IH]; simpl.
  - destruct (match_at r []) eqn:E; [|done]. intros [= ->].
    apply match_at_sound in E as (rest & E & Hm). exists [], rest. done.
  - destruct (match_at r (c :: s)) eqn:E.
    + intros [= ->]. apply match_at_sound in E as (rest & E & Hm).
      exists [], rest. done.
    + intros H. apply IH in H as (pre & post & -> & Hm).
      exists (c :: pre), post. done.
Qed.

Lemma search_none (r : regex) (s : str) :
  search r s = None ->
  forall pre w post cap, s = pre ++ w ++ post -> ~ Matches r w None cap.
Proof.
  induction s as [|c s IH]; simpl.
  - destruct (match_at r []) eqn:E; [done|]. intros _ pre w post cap Hs.
    destruct pre; [|done]. by eapply match_at_none.
  - destruct (match_at r (c :: s)) eqn:E; [done|]. intros H pre w post cap Hs.
    destruct pre as [|c' pre].
    + by eapply match_at_none.
    + injection Hs as -> ->. by eapply IH.
Qed.

Lemma search_finds (r : regex) (pre w post : str) cap :
  Matches r w None cap -> exists mt, search r (pre ++ w ++ post) = Some mt.
Proof.
  intros Hm. destruct (search r (pre ++ w ++ post)) eqn:E; [eauto|].
  exfalso. by eapply search_none.
Qed.

Lemma findall_from_none (r : regex) (k : nat) (s : str) :
  (forall pre w post cap, s = pre ++ w ++ post -> ~ Matches r w None cap) ->
  findall_from r k s = [].
Proof.
  revert k. induction s as [|c s IH]; intros k Hno.
  - destruct k; simpl; [|done]. destruct (match_at r []) eqn:E; [|done].
    apply match_at_sound in E as (rest & E & Hm). exfalso.
    by apply (Hno [] (group0 m) rest (group1 m)).
  - assert (Hs : forall pre w post cap, s = pre ++ w ++ post -> ~ Matches r w None cap).
    { intros pre w post cap ->. by apply (Hno (c :: pre) w post cap). }
    destruct k; simpl; [|by apply IH].
    destruct (match_at r (c :: s)) eqn:E; [|by apply IH].
    apply match_at_sound in E as (rest & E & Hm). exfalso.
    by apply (Hno [] (group0 m) rest (group1 m)).
Qed.

Lemma findall_from_sound (r : regex) (k : nat) (s : str) (g : str) :
  In g (findall_from r k s) ->
  exists pre w post cap,
    s = pre ++ w ++ post /\ Matches r w None cap /\ g = default [] cap.
Proof.
  revert k. induction s as [|c s IH]; intros k.
  - destruct k; simpl; [|done]. destruct (match_at r []) eqn:E; [|done].
    intros [<-|[]]. apply match_at_sound in E as (rest & E & Hm).
    exists [], (group0 m), rest, (group1 m). done.
  - assert (Hs : forall k, In g (findall_from r k s) ->
               exists pre w post cap,
                 c :: s = pre ++ w ++ post /\ Matches r w None cap /\ g = default [] cap).
    { intros k0 H. apply IH in H as (pre & w & post & cap & -> & Hm & Hg).
      exists (c :: pre), w, post, cap. done. }
    destruct k; simpl; [|by apply Hs].
    destruct (match_at r (c :: s)) eqn:E; [|by apply Hs].
    intros [<-|H]; [|by eapply Hs].
    apply match_at_sound in E as (rest & E & Hm).
    exists [], (group0 m), rest, (group1 m). done.
Qed.

(** ** The patterns of the program *)

Ltac inv_matches :=
  repeat match goal with
    | H : Matches (Lit _) _ _ _ |- _ => inversion H; subst; clear H
    | H : Matches (Rep _ _ _ _) _ _ _ |- _ => inversion H; subst; clear H
    | H : Matches (Cat _ _) _ _ _ |- _ => inversion H; subst; clear H
    | H : Matches (Grp _) _ _ _ |- _ => inversion H; subst; clear H
    | H : Matches (Alt _ _) _ _ _ |- _ => inversion H; subst; clear H
    end.

Lemma search_lit_prefix (l : str) (r : regex) (text : str) (mt : match_obj) :
  search (Cat (Lit l) r) text = Some mt -> contains l text = true.
Proof.
  intros H. apply search_sound in H as (pre & post & -> & Hm).
  destruct mt as [g0 g1]; simpl in *. inv_matches.
  apply contains_spec. exists pre, (w2 ++ post). by rewrite <- app_assoc.
Qed.

Lemma search_lit_absent (l : str) (r : regex) (text : str) :
  contains l text = false -> search (Cat (Lit l) r) text = None.
Proof.
  intros Hc. destruct (search _ text) eqn:E; [|done].
  apply search_lit_prefix in E. congruence.
Qed.

Lemma findall_lit_absent (l : str) (r : regex) (text : str) :
  contains l text = false -> findall (Cat (Lit l) r) text = [].
Proof.
  intros Hc. apply findall_from_none. intros pre w post cap -> Hm.
  inv_matches.
  eapply (contains_false _ _ pre (w2 ++ post)); [exact Hc|].
  by rewrite <- app_assoc.
Qed.

Lemma tag_matches (tag : string) (w : str) (cap : option str) :
  Matches (tag_re tag) w None cap ->
  exists g,
    w = (chars "<" ++ chars tag ++ chars ">") ++ g
        ++ (chars "</" ++ chars tag ++ chars ">")
    /\ cap = Some g /\ forallb is_dot g = true.
Proof. unfold tag_re. intros H. inv_matches. eauto. Qed.

Lemma matches_wrap (l1 l2 g : str) (r : regex) (c : option str) :
  Matches r g None c ->
  Matches (Cat (Lit l1) (Cat (Grp r) (Lit l2))) (l1 ++ g ++ l2) None (Some g).
Proof.
  intros H. eapply MCat; [apply MLit|].
  eapply MCat; [eapply MGrp; exact H | apply MLit].
Qed.

Lemma year_matches (w : str) (cap : option str) :
  Matches YEAR_RE w None cap <->
  exists y, w = chars "<Year>" ++ y ++ chars "</Year>" /\ cap = Some y
            /\ length y = 4 /\ forallb is_digit y = true.
Proof.
  unfold YEAR_RE. split.
  - intros H. inv_matches. eexists. repeat split; try done.
    simpl in *. lia.
  - intros (y & -> & -> & Hl & Hd). eapply matches_wrap.
    constructor; [done|lia|simpl; lia].
Qed.

Lemma month_matches (w : str) (cap : option str) :
  Matches MONTH_RE w None cap <->
  exists m, w = chars "<Month>" ++ m ++ chars "</Month>" /\ cap = Some m
            /\ ((forallb is_alpha m = true /\ 1 <= length m)
                \/ (forallb is_digit m = true /\ 1 <= length m <= 2)).
Proof.
  unfold MONTH_RE. split.
  - intros H. inv_matches; eexists; repeat split; try done; simpl in *; eauto.
  - intros (m & -> & -> & [[Ha Hl]|[Hd Hl]]).
    + eapply matches_wrap. apply MAltL. by constructor.
    + eapply matches_wrap. apply MAltR. constructor; [done|lia|simpl; lia].
Qed.

Lemma day_matches (w : str) (cap : option str) :
  Matches DAY_RE w None cap <->
  exists d, w = chars "<Day>" ++ d ++ chars "</Day>" /\ cap = Some d
            /\ forallb is_digit d = true /\ 1 <= length d <= 2.
Proof.
  unfold DAY_RE. split.
  - intros H. inv_matches. eexists. repeat split; try done; simpl in *; lia.
  - intros (d & -> & -> & Hd & Hl). eapply matches_wrap.
    constructor; [done|lia|simpl; lia].
Qed.

Lemma email_matches (w : str) (cap : option str) :
  Matches EMAIL_RE w None cap ->
  exists loc dom tld,
    w = loc ++ chars "@" ++ dom ++ chars "." ++ tld
    /\ forallb is_local loc = true /\ 1 <= length loc
    /\ forallb is_domain dom = true /\ 1 <= length dom
    /\ forallb is_alpha tld = true /\ 2 <= length tld.
Proof.
  unfold EMAIL_RE. intros H. inv_matches. do 3 eexists. repeat split; done.
Qed.

(** What the three searches of [clean_publication_date] find. *)
Lemma year_match_spec (text : str) (m : match_obj) :
  year_match text = Some m ->
  length (group m) = 4 /\ forallb is_digit (group m) = true
  /\ exists pre post,
      text = pre ++ chars "<Year>" ++ group m ++ chars "</Year>" ++ post.
Proof.
  intros H. apply search_sound in H as (pre & post & -> & Hm).
  apply year_matches in Hm as (y & Hw & Hc & Hl & Hd).
  unfold group. rewrite Hc, Hw. simpl. repeat split; try done.
  exists pre, post. by rewrite <- !app_assoc.
Qed.

Lemma month_match_spec (text : str) (m : match_obj) :
  month_match text = Some m ->
  ((forallb is_alpha (group m) = true /\ 1 <= length (group m))
   \/ (forallb is_digit (group m) = true /\ 1 <= length (group m) <= 2))
  /\ exists pre post,
      text = pre ++ chars "<Month>" ++ group m ++ chars "</Month>" ++ post.
Proof.
  intros H. apply search_sound in H as (pre & post & -> & Hm).
  apply month_matches in Hm as (y & Hw & Hc & Hy).
  unfold group. rewrite Hc, Hw. simpl. split; [done|].
  exists pre, post. by rewrite <- !app_assoc.
Qed.

Lemma day_match_spec (text : str) (m : match_obj) :
  day_match text = Some m ->
  forallb is_digit (group m) = true /\ 1 <= length (group m) <= 2
  /\ exists pre post,
      text = pre ++ chars "<Day>" ++ group m ++ chars "</Day>" ++ post.
Proof.
  intros H. apply search_sound in H as (pre & post & -> & Hm).
  apply day_matches in Hm as (y & Hw & Hc & Hd & Hl).
  unfold group. rewrite Hc, Hw. simpl. repeat split; try done; try lia.
  exists pre, post. by rewrite <- !app_assoc.
Qed.

Lemma year_match_finds (pre y post : str) :
  length y = 4 -> forallb is_digit y = true ->
  exists m, year_match (pre ++ (chars "<Year>" ++ y ++ chars "</Year>") ++ post) = Some m.
Proof.
  intros Hl Hd. eapply search_finds. apply year_matches. eauto.
Qed.

Lemma month_match_finds (pre mo post : str) :
  (forallb is_alpha mo = true /\ 1 <= length mo)
  \/ (forallb is_digit mo = true /\ 1 <= length mo <= 2) ->
  exists m, month_match (pre ++ (chars "<Month>" ++ mo ++ chars "</Month>") ++ post) = Some m.
Proof.
  intros H. eapply search_finds. apply month_matches. eauto.
Qed.

Lemma day_match_finds (pre d post : str) :
  forallb is_digit d = true -> 1 <= length d <= 2 ->
  exists m, day_match (pre ++ (chars "<Day>" ++ d ++ chars "</Day>") ++ post) = Some m.
Proof.
  intros Hd Hl. eapply search_finds. apply day_matches. eauto.
Qed.

(** How [clean_publication_date] composes what the searches found. *)
Lemma clean_publication_date_spec (text : str) :
  clean_publication_date text =
  let year := match year_match text with Some m => group m | None => chars "Unknown" end in
  match day_match text, month_match text with
  | Some d, Some m => year ++ chars "-" ++ group m ++ chars "-" ++ group d
  | Some d, None => year ++ chars "-" ++ chars "Unknown" ++ chars "-" ++ group d
  | None, Some m =>
      if bool_decide (group m = chars "Unknown") then year
      else year ++ chars "-" ++ group m
  | None, None => year
  end.
Proof.
  unfold clean_publication_date.
  destruct (day_match text) as [d|] eqn:Ed.
  - apply day_match_spec in Ed as (_ & Hl & _).
    destruct (group d) as [|c d']; [simpl in Hl; lia|].
    by destruct (month_match text).
  - destruct (month_match text) as [m|]; simpl.
    + by repeat case_bool_decide.
    + done.
Qed.

(** ** Date composition *)

Example date_year_month_day :
  clean_publication_date
    (chars "<Year>2021</Year><Month>Jan</Month><Day>15</Day>") = chars "2021-Jan-15".
Proof. vm_compute. reflexivity. Qed.

Example date_year_only :
  clean_publication_date (chars "<Year>2021</Year>") = chars "2021".
Proof. vm_compute. reflexivity. Qed.

Example date_year_month :
  clean_publication_date (chars "<Year>2021</Year><Month>03</Month>") = chars "2021-03".
Proof. vm_compute. reflexivity. Qed.

(** C2.  The composition is year-month-day when a day is found, else
    year-month when a month is found, else the year.  The code misses one
    case: a month that is found and reads "Unknown" is taken for the
    sentinel of a missing month, and the year alone is returned although a
    month is present. *)
Theorem C2_month_found_but_dropped :
  (exists m,
      month_match (chars "<Year>2021</Year><Month>Unknown</Month>") = Some m
      /\ group m = chars "Unknown")
  /\ day_match (chars "<Year>2021</Year><Month>Unknown</Month>") = None
  /\ clean_publication_date (chars "<Year>2021</Year><Month>Unknown</Month>")
     = chars "2021"
  /\ clean_publication_date (chars "<Year>2021</Year><Month>Unknown</Month>")
     <> chars "2021-Unknown".
Proof.
  split; [|split; [|split]].
  - eexists. split; vm_compute; reflexivity.
  - vm_compute. reflexivity.
  - vm_compute. reflexivity.
  - vm_compute. discriminate.
Qed.

(** ** Extraction *)

Lemma paper_of_text_fields (rt : runtime) (paper_id text : str) :
  PubmedID (paper_of_text rt paper_id text) = paper_id
  /\ Title (paper_of_text rt paper_id text) = title_of text
  /\ Publication_Date (paper_of_text rt paper_id text) = clean_publication_date text
  /\ Corresponding_Author_Email (paper_of_text rt paper_id text) = email_of text.
Proof. unfold paper_of_text. by destruct (classify _ _). Qed.

Lemma email_absent (text : str) :
  contains (chars "@") text = false -> search EMAIL_RE text = None.
Proof.
  intros Hc. destruct (search EMAIL_RE text) as [m|] eqn:E; [|done].
  apply search_sound in E as (pre & post & -> & Hm).
  apply email_matches in Hm as (loc & dom & tld & Hw & _).
  exfalso. eapply (contains_false _ _ (pre ++ loc) (dom ++ chars "." ++ tld ++ post));
    [exact Hc|].
  rewrite Hw. by rewrite <- !app_assoc.
Qed.

(** C5.  Field extraction is total.  When the request succeeds
    [fetch_paper_details] returns a record, and it raises only when the
    request raises or the status is not a success.  A payload without the
    title tag gives the title "N/A", one without an [@] the email
    "Not found", one without the year tag a date that starts with "Unknown"
    (the whole date when month and day are missing too), a missing month
    next to a day is written "Unknown", and a payload without author or
    affiliation tags gives empty lists (and "None" for both derived
    fields). *)
Theorem C5_extraction_total (rt : runtime) (paper_id payload : str) :
  (forall r,
      requests_get rt PUBMED_FETCH_URL
        [(chars "db", PStr (chars "pubmed")); (chars "id", PStr paper_id);
         (chars "retmode", PStr (chars "xml"))] HEADERS = Ret r ->
      status_ok r = true ->
      fetch_paper_details rt paper_id = Ret (paper_of_text rt paper_id (text r)))
  /\ (forall e,
         fetch_paper_details rt paper_id = Raise e ->
         requests_get rt PUBMED_FETCH_URL
           [(chars "db", PStr (chars "pubmed")); (chars "id", PStr paper_id);
            (chars "retmode", PStr (chars "xml"))] HEADERS = Raise e
         \/ exists r,
             requests_get rt PUBMED_FETCH_URL
               [(chars "db", PStr (chars "pubmed")); (chars "id", PStr paper_id);
                (chars "retmode", PStr (chars "xml"))] HEADERS = Ret r
             /\ status_ok r = false /\ e = HTTPError)
  /\ (contains (chars "<ArticleTitle>") payload = false ->
      Title (paper_of_text rt paper_id payload) = chars "N/A")
  /\ (contains (chars "@") payload = false ->
      Corresponding_Author_Email (paper_of_text rt paper_id payload) = chars "Not found")
  /\ (contains (chars "<Year>") payload = false ->
      startswith (chars "Unknown") (Publication_Date (paper_of_text rt paper_id payload)) = true)
  /\ (contains (chars "<Year>") payload = false ->
      contains (chars "<Month>") payload = false ->
      contains (chars "<Day>") payload = false ->
      Publication_Date (paper_of_text rt paper_id payload) = chars "Unknown")
  /\ (contains (chars "<Month>") payload = false ->
      forall d, day_match payload = Some d ->
      exists year,
        Publication_Date (paper_of_text rt paper_id payload)
        = year ++ chars "-Unknown-" ++ group d)
  /\ (contains (chars "<Author>") payload = false -> authors_of payload = [])
  /\ (contains (chars "<Affiliation>") payload = false ->
      affiliations_of payload = []
      /\ Non_academic_Authors (paper_of_text rt paper_id payload) = chars "None"
      /\ Company_Affiliations (paper_of_text rt paper_id payload) = chars "None").
Proof.
  destruct (paper_of_text_fields rt paper_id payload) as (_ & Ht & Hd & He).
  rewrite Ht, Hd, He. repeat split.
  - intros r Hr Hok. unfold fetch_paper_details, raise_for_status.
    rewrite Hr. simpl. rewrite Hok. done.
  - intros e. unfold fetch_paper_details, raise_for_status.
    destruct (requests_get rt _ _ _) as [r|e'] eqn:Hr; simpl.
    + destruct (status_ok r) eqn:Hok; simpl; [done|].
      intros [= <-]. right. eauto.
    + intros [= <-]. by left.
  - intros Hc. unfold title_of, TITLE_RE, tag_re.
    by rewrite search_lit_absent.
  - intros Hc. unfold email_of. by rewrite email_absent.
  - intros Hc. rewrite clean_publication_date_spec.
    unfold year_match, YEAR_RE. rewrite search_lit_absent by done. cbv zeta.
    destruct (day_match payload), (month_match payload); try done.
    by case_bool_decide.
  - intros Hy Hm Hd'. rewrite clean_publication_date_spec.
    unfold year_match, month_match, day_match, YEAR_RE, MONTH_RE, DAY_RE.
    by rewrite !search_lit_absent.
  - intros Hm d Hd'. rewrite clean_publication_date_spec, Hd'.
    unfold month_match, MONTH_RE. rewrite search_lit_absent by done.
    cbv zeta. eexists. reflexivity.
  - intros Hc. by apply findall_lit_absent.
  - by apply findall_lit_absent.
  - unfold paper_of_text, affiliations_of, AFFILIATION_RE, tag_re.
    rewrite findall_lit_absent by done. by destruct (authors_of payload).
  - unfold paper_of_text, affiliations_of, AFFILIATION_RE, tag_re.
    rewrite findall_lit_absent by done. by destruct (authors_of payload).
Qed.

Lemma C5_extraction_total_witness :
  fetch_paper_details
    (static_runtime (Ret (ok_response (chars "<Day>7</Day> no other markup") None)))
    (chars "31452104")
  = Ret (paper_of_text
           (static_runtime (Ret (ok_response (chars "<Day>7</Day> no other markup") None)))
           (chars "31452104") (chars "<Day>7</Day> no other markup"))
  /\ Title (paper_of_text offline (chars "31452104") (chars "<Day>7</Day> no other markup"))
     = chars "N/A"
  /\ Corresponding_Author_Email
       (paper_of_text offline (chars "31452104") (chars "<Day>7</Day> no other markup"))
     = chars "Not found"
  /\ startswith (chars "Unknown")
       (Publication_Date
          (paper_of_text offline (chars "31452104") (chars "<Day>7</Day> no other markup")))
     = true
  /\ Publication_Date (paper_of_text offline (chars "31452104") (chars "plain text"))
     = chars "Unknown"
  /\ authors_of (chars "<Day>7</Day> no other markup") = []
  /\ affiliations_of (chars "<Day>7</Day> no other markup") = [].
Proof.
  destruct (C5_extraction_total
              (static_runtime (Ret (ok_response (chars "<Day>7</Day> no other markup") None)))
              (chars "31452104") (chars "<Day>7</Day> no other markup"))
    as (Hret & _).
  destruct (C5_extraction_total offline
              (chars "31452104") (chars "<Day>7</Day> no other markup"))
    as (_ & _ & Ht & He & Hy & _ & _ & Hau & Haf).
  destruct (C5_extraction_total offline (chars "31452104") (chars "plain text"))
    as (_ & _ & _ & _ & _ & Hd & _).
  split; [exact (Hret _ eq_refl eq_refl)|].
  split; [exact (Ht eq_refl)|].
  split; [exact (He eq_refl)|].
  split; [exact (Hy eq_refl)|].
  split; [exact (Hd eq_refl eq_refl eq_refl)|].
  split; [exact (Hau eq_refl)|].
  exact (proj1 (Haf eq_refl)).
Defined.

(** ** The search client *)

Lemma fetch_paper_ids_spec (rt : runtime) (query : str) (max_results : Z)
    (ids : list str) :
  fetch_paper_ids rt query max_results = Ret ids <->
  exists r data,
    requests_get rt PUBMED_API_URL
      [(chars "db", PStr (chars "pubmed")); (chars "term", PStr query);
       (chars "retmode", PStr (chars "json")); (chars "retmax", PInt max_results)]
      HEADERS = Ret r
    /\ status_ok r = true /\ json r = Some data
    /\ ids = default [] (default ∅ (data !! chars "esearchresult") !! chars "idlist").
Proof.
  unfold fetch_paper_ids, raise_for_status, response_json. split.
  - destruct (requests_get rt _ _ _) as [r|e]; simpl; [|done].
    destruct (status_ok r) eqn:Hok; simpl; [|done].
    destruct (json r) as [data|] eqn:Hj; simpl; [|done].
    intros [= <-]. exists r, data. done.
  - intros (r & data & -> & Hok & Hj & ->). simpl. rewrite Hok. simpl.
    rewrite Hj. done.
Qed.

(** C6 (as amended).  When the search client returns, it returns, unchanged
    and in order, the identifier list found under "esearchresult"/"idlist"
    in the decoded answer to its request, which carries [retmax = N] (the
    empty list when a key is missing).  It truncates and checks nothing: the
    list has at most [N] identifiers, each non-empty, when the answer of the
    server to that request has. *)
Theorem C6_ids_as_served (rt : runtime) (query : str) (N : Z) (ids : list str) :
  fetch_paper_ids rt query N = Ret ids ->
  (exists r data,
      requests_get rt PUBMED_API_URL
        [(chars "db", PStr (chars "pubmed")); (chars "term", PStr query);
         (chars "retmode", PStr (chars "json")); (chars "retmax", PInt N)]
        HEADERS = Ret r
      /\ json r = Some data
      /\ ids = default [] (default ∅ (data !! chars "esearchresult") !! chars "idlist"))
  /\ ((forall r data served,
          requests_get rt PUBMED_API_URL
            [(chars "db", PStr (chars "pubmed")); (chars "term", PStr query);
             (chars "retmode", PStr (chars "json")); (chars "retmax", PInt N)]
            HEADERS = Ret r ->
          json r = Some data ->
          data !! chars "esearchresult" ≫= (.!! chars "idlist") = Some served ->
          (Z.of_nat (length served) <= N)%Z /\ Forall (fun id => id <> []) served) ->
      (0 <= N)%Z ->
      (Z.of_nat (length ids) <= N)%Z /\ Forall (fun id => id <> []) ids).
Proof.
  intros H. apply fetch_paper_ids_spec in H as (r & data & Hr & Hok & Hj & ->).
  split; [exists r, data; done|].
  intros Hserved HN.
  destruct (data !! chars "esearchresult") as [res|] eqn:E1; cbn -[chars].
  - destruct (res !! chars "idlist") as [served|] eqn:E2; cbn -[chars].
    + apply (Hserved r data served Hr Hj). rewrite E1. exact E2.
    + split; [lia|constructor].
  - rewrite lookup_empty. cbn. split; [lia|constructor].
Qed.

Lemma C6_ids_as_served_witness :
  (Z.of_nat (length [chars "31452104"; chars "30049270"]) <= 10)%Z
  /\ Forall (fun id => id <> []) [chars "31452104"; chars "30049270"].
Proof.
  refine (proj2 (C6_ids_as_served
            (static_runtime
               (Ret (ok_response [] (Some (search_result [chars "31452104"; chars "30049270"])))))
            (chars "cancer") 10 [chars "31452104"; chars "30049270"] _) _ _).
  - vm_compute. reflexivity.
  - intros r data served [= <-] [= <-]. vm_compute. intros [= <-].
    split; [discriminate|]. repeat constructor; discriminate.
  - lia.
Defined.

(** C6 fails as stated: the client hands on whatever list the server sent,
    here two identifiers for [max_results = 1], one of them empty. *)
Lemma C6_counterexample :
  chars "cancer" <> [] /\ (0 < 1)%Z
  /\ fetch_paper_ids
       (static_runtime (Ret (ok_response [] (Some (search_result [chars "31452104"; []])))))
       (chars "cancer") 1
     = Ret [chars "31452104"; []]
  /\ ~ (Z.of_nat (length [chars "31452104"; []]) <= 1)%Z
  /\ ~ Forall (fun id : str => id <> []) [chars "31452104"; []].
Proof.
  split; [discriminate|]. split; [lia|]. split; [vm_compute; reflexivity|].
  split; [simpl; lia|]. intros H. inversion H as [|? ? _ H']. inversion H' as [|? ? Hne _].
  by apply Hne.
Qed.

(** ** The pipeline *)

Lemma fetch_paper_details_id (rt : runtime) (paper_id : str) (p : paper) :
  fetch_paper_details rt paper_id = Ret p -> PubmedID p = paper_id.
Proof.
  unfold fetch_paper_details, raise_for_status.
  destruct (requests_get rt _ _ _) as [r|e]; simpl; [|done].
  destruct (status_ok r); simpl; [|done]. intros [= <-].
  apply paper_of_text_fields.
Qed.

Lemma fetch_all_spec (rt : runtime) (ids : list str) (papers : list paper) :
  fetch_all rt ids = Ret papers <->
  Forall2 (fun paper_id p => fetch_paper_details rt paper_id = Ret p) ids papers.
Proof.
  revert papers. induction ids as [|paper_id ids IH]; intros papers; simpl.
  - split.
    + intros [= <-]. constructor.
    + intros H. by inversion H.
  - destruct (fetch_paper_details rt paper_id) as [p|e] eqn:Ep; simpl.
    + destruct (fetch_all rt ids) as [ps|e] eqn:Eps; simpl.
      * split.
        -- intros [= <-]. constructor; [done|]. by apply IH.
        -- intros H. inversion H as [|? p' ? ps' Hp Hps]; subst.
           apply IH in Hps. congruence.
      * split; [done|]. intros H. inversion H as [|? p' ? ps' Hp Hps]; subst.
        apply IH in Hps. done.
    + split; [done|]. intros H. inversion H; subst. congruence.
Qed.

Lemma fetch_all_total (rt : runtime) (ids : list str) :
  (forall paper_id, In paper_id ids -> exists p, fetch_paper_details rt paper_id = Ret p) ->
  exists papers, fetch_all rt ids = Ret papers.
Proof.
  induction ids as [|paper_id ids IH]; intros Hall; simpl; [eauto|].
  destruct (Hall paper_id) as [p Hp]; [by left|]. rewrite Hp. simpl.
  destruct IH as [ps Hps]; [intros; apply Hall; by right|]. rewrite Hps. simpl.
  eauto.
Qed.

Lemma fetched_ids (rt : runtime) (ids : list str) (papers : list paper) :
  Forall2 (fun paper_id p => fetch_paper_details rt paper_id = Ret p) ids papers ->
  map PubmedID papers = ids.
Proof.
  induction 1 as [|paper_id p ids ps Hd _ IH]; simpl; [done|].
  by rewrite IH, (fetch_paper_details_id _ _ _ Hd).
Qed.

(** C7.  When the search client returned the identifiers [ids] and each
    detail request succeeds, the pipeline returns exactly one record per
    identifier, in the order of [ids]: the i-th record is the one fetched
    for the i-th identifier and its PubmedID is that identifier. *)
Theorem C7_one_record_per_id (rt : runtime) (query : str) (N : Z) (ids : list str) :
  fetch_paper_ids rt query N = Ret ids ->
  (forall paper_id, In paper_id ids -> exists p, fetch_paper_details rt paper_id = Ret p) ->
  exists papers,
    get_papers rt query N = Ret papers
    /\ length papers = length ids
    /\ map PubmedID papers = ids
    /\ Forall2 (fun paper_id p => fetch_paper_details rt paper_id = Ret p) ids papers.
Proof.
  intros Hids Hall. unfold get_papers. rewrite Hids. simpl.
  destruct (fetch_all_total rt ids Hall) as [papers Hp].
  exists papers. split; [done|]. apply fetch_all_spec in Hp.
  split; [symmetry; by eapply Forall2_length|]. split; [|done].
  by eapply fetched_ids.
Qed.

Lemma C7_one_record_per_id_witness :
  exists papers,
    get_papers
      (static_runtime
         (Ret (ok_response (chars "<ArticleTitle>On cells</ArticleTitle>")
                 (Some (search_result [chars "31452104"; chars "30049270"])))))
      (chars "cells") 10 = Ret papers
    /\ length papers = length [chars "31452104"; chars "30049270"]
    /\ map PubmedID papers = [chars "31452104"; chars "30049270"]
    /\ Forall2
         (fun paper_id p =>
            fetch_paper_details
              (static_runtime
                 (Ret (ok_response (chars "<ArticleTitle>On cells</ArticleTitle>")
                         (Some (search_result [chars "31452104"; chars "30049270"])))))
              paper_id = Ret p)
         [chars "31452104"; chars "30049270"] papers.
Proof.
  apply (C7_one_record_per_id
           (static_runtime
              (Ret (ok_response (chars "<ArticleTitle>On cells</ArticleTitle>")
                      (Some (search_result [chars "31452104"; chars "30049270"])))))
           (chars "cells") 10 [chars "31452104"; chars "30049270"]).
  - vm_compute. reflexivity.
  - intros paper_id _. eexists. reflexivity.
Defined.

(** ** The sink *)

Lemma print_all_spec (rt : runtime) (papers : list paper) (w : world) :
  print_all rt papers w =
  {| files := files w;
     stdout := stdout w ++ map (fun p => repr rt (as_dict p)) papers |}.
Proof.
  revert w. induction papers as [|p ps IH]; intros w; simpl.
  - rewrite app_nil_r. by destruct w.
  - rewrite IH. simpl. by rewrite <- app_assoc.
Qed.

Lemma save_to_csv_raises (papers : list paper) (filename : str) (w : world) :
  (save_to_csv papers filename w).1 = Raise IndexError <-> papers = [].
Proof. destruct papers; simpl; split; done. Qed.

(** C4.  Writing an empty sequence of records to a file fails: [papers[0]]
    raises (the spec's EmptyInputError is Python's IndexError here), after
    the file has been opened and emptied, and nothing is printed; writing
    fails this way only for the empty sequence.  In console mode the empty
    sequence prints nothing and the run ends normally. *)
Theorem C4_empty_result (rt : runtime) (a : args) (w : world) :
  get_papers rt (query a) 10 = Ret [] ->
  (forall filename v,
      save_to_csv [] filename v = (Raise IndexError, write_file filename [] v))
  /\ (forall papers filename v,
         (save_to_csv papers filename v).1 = Raise IndexError <-> papers = [])
  /\ (forall filename,
         file a = Some filename -> filename <> [] -> debug a = false ->
         main rt a w = (Raise IndexError, write_file filename [] w))
  /\ (file a = None \/ file a = Some [] -> debug a = false ->
      main rt a w = (Ret tt, w)).
Proof.
  intros Hp. split; [done|]. split; [apply save_to_csv_raises|]. split.
  - intros filename Hf Hne Hd. unfold main. rewrite Hp, Hf, Hd.
    by destruct filename.
  - intros Hf Hd. unfold main. rewrite Hp, Hd.
    destruct Hf as [-> | ->]; simpl; by destruct w.
Qed.

Lemma C4_empty_result_witness :
  main (static_runtime (Ret (ok_response [] (Some (search_result [])))))
       {| query := chars "no such topic"; debug := false; file := Some (chars "out.csv") |}
       {| files := ∅; stdout := [] |}
  = (Raise IndexError, write_file (chars "out.csv") [] {| files := ∅; stdout := [] |})
  /\ main (static_runtime (Ret (ok_response [] (Some (search_result [])))))
       {| query := chars "no such topic"; debug := false; file := None |}
       {| files := ∅; stdout := [] |}
     = (Ret tt, {| files := ∅; stdout := [] |}).
Proof.
  split.
  - refine (proj1 (proj2 (proj2 (C4_empty_result
              (static_runtime (Ret (ok_response [] (Some (search_result [])))))
              {| query := chars "no such topic"; debug := false;
                 file := Some (chars "out.csv") |}
              {| files := ∅; stdout := [] |} _))) (chars "out.csv") _ _ _).
    + vm_compute. reflexivity.
    + reflexivity.
    + discriminate.
    + reflexivity.
  - refine (proj2 (proj2 (proj2 (C4_empty_result
              (static_runtime (Ret (ok_response [] (Some (search_result [])))))
              {| query := chars "no such topic"; debug := false; file := None |}
              {| files := ∅; stdout := [] |} _))) _ _).
    + vm_compute. reflexivity.
    + by left.
    + reflexivity.
Defined.

(** ** The command line *)

(** A run without the debug flag: the result and the files do not depend on
    what was printed before, and the run only appends to the output. *)
Lemma main_quiet (rt : runtime) (q : str) (f : option str) (w : world) :
  exists out,
    forall printed,
      main rt {| query := q; debug := false; file := f |}
           {| files := files w; stdout := printed |}
      = ((main rt {| query := q; debug := false; file := f |} w).1,
         {| files := files (main rt {| query := q; debug := false; file := f |} w).2;
            stdout := printed ++ out |}).
Proof.
  unfold main. simpl. destruct (get_papers rt q 10) as [papers|e].
  - destruct f as [[|c f]|].
    + exists (map (fun p => repr rt (as_dict p)) papers). intros printed.
      by rewrite !print_all_spec.
    + destruct papers as [|p ps]; simpl.
      * exists []. intros printed. by rewrite app_nil_r.
      * eexists. intros printed. reflexivity.
    + exists (map (fun p => repr rt (as_dict p)) papers). intros printed.
      by rewrite !print_all_spec.
  - exists []. intros printed. simpl. by rewrite app_nil_r.
Qed.

(** C9.  The debug flag only prints the query first: the run with the flag
    is the run without it started after that one line was printed.  Both
    runs end the same way and leave the same files, and the output with the
    flag is the output without it with the query line put in front of what
    the run printed. *)
Theorem C9_debug_only_prints (rt : runtime) (q : str) (f : option str) (w : world) :
  main rt {| query := q; debug := true; file := f |} w
  = main rt {| query := q; debug := false; file := f |}
         (print (chars "Fetching papers for query: " ++ q) w)
  /\ (main rt {| query := q; debug := true; file := f |} w).1
     = (main rt {| query := q; debug := false; file := f |} w).1
  /\ files (main rt {| query := q; debug := true; file := f |} w).2
     = files (main rt {| query := q; debug := false; file := f |} w).2
  /\ exists out,
      stdout (main rt {| query := q; debug := false; file := f |} w).2
      = stdout w ++ out
      /\ stdout (main rt {| query := q; debug := true; file := f |} w).2
         = stdout w ++ [chars "Fetching papers for query: " ++ q] ++ out.
Proof.
  assert (E : main rt {| query := q; debug := true; file := f |} w
              = main rt {| query := q; debug := false; file := f |}
                     (print (chars "Fetching papers for query: " ++ q) w)) by done.
  split; [done|]. rewrite E. clear E.
  destruct (main_quiet rt q f w) as [out Hout].
  pose proof (Hout (stdout w)) as H0.
  pose proof (Hout (stdout w ++ [chars "Fetching papers for query: " ++ q])) as H1.
  assert (Hw : {| files := files w; stdout := stdout w |} = w) by (by destruct w).
  rewrite Hw in H0. unfold print. rewrite H1. cbn [fst snd files stdout].
  split; [done|]. split; [done|]. exists out. split.
  - rewrite H0 at 1. done.
  - by rewrite <- app_assoc.
Qed.

(** ** The csv reader, line by line and character by character *)

Module CsvFacts.
Import Csv.

Lemma feed_app (rd : reader) (ts1 ts2 : list token) :
  feed rd (ts1 ++ ts2) = (rd' <- feed rd ts1 ;; feed rd' ts2).
Proof.
  revert rd. induction ts1 as [|t ts1 IH]; intros rd; simpl; [done|].
  destruct (parse_process_char rd t); simpl; [apply IH|done].
Qed.

Lemma readlines_from_head (cur s : str) :
  cur <> [] -> exists l ls, readlines_from cur s = (cur ++ l) :: ls.
Proof.
  revert cur. induction s as [|c s IH]; intros cur Hne; simpl.
  - destruct cur; [done|]. exists [], []. by rewrite app_nil_r.
  - destruct (ends_line c s).
    + by exists [c], (readlines_from [] s).
    + destruct (IH (cur ++ [c])) as (l & ls & E); [by destruct cur|].
      exists (c :: l), ls. by rewrite E, <- app_assoc.
Qed.

Lemma read_records_raise (rd : reader) (cur l : str) (ls : list str) (e : exn) :
  feed rd (map Chr cur) = Raise e ->
  read_records rd ((cur ++ l) :: ls) = Raise e.
Proof.
  intros H. simpl. unfold feed_line.
  rewrite map_app, <- app_assoc, feed_app, H. done.
Qed.

Lemma scan_readlines (s cur : str) (rd0 rd1 : reader) :
  feed rd0 (map Chr cur) = Ret rd1 ->
  read_records rd0 (readlines_from cur s)
  = scan rd1 (match cur with [] => false | _ => true end) s.
Proof.
  revert cur rd0 rd1. induction s as [|c s IH]; intros cur rd0 rd1 Hcur.
  - simpl. destruct cur as [|c0 cur].
    + simpl in Hcur. by injection Hcur as ->.
    + cbn [read_records]. unfold feed_line. rewrite feed_app, Hcur.
      cbn [bind feed]. destruct (parse_process_char rd1 EOL) as [rd'|e]; [|done].
      cbn [bind]. by destruct (state rd').
  - cbn [readlines_from scan]. destruct (ends_line c s) eqn:El.
    + cbn [read_records]. unfold feed_line.
      rewrite map_app, <- app_assoc, feed_app, Hcur. cbn [bind map app feed].
      destruct (parse_process_char rd1 (Chr c)) as [rd'|e]; [|done]. cbn [bind].
      destruct (parse_process_char rd' EOL) as [rd''|e]; [|done]. cbn [bind].
      destruct (state rd''); try (by apply (IH [])).
      by rewrite (IH [] parse_reset parse_reset).
    + destruct (parse_process_char rd1 (Chr c)) as [rd'|e] eqn:Ec; cbn [bind].
      * rewrite (IH (cur ++ [c]) rd0 rd').
        -- by destruct cur.
        -- by rewrite map_app, feed_app, Hcur; cbn [bind map feed]; rewrite Ec.
      * destruct (readlines_from_head (cur ++ [c]) s) as (l & ls & E);
          [by destruct cur|].
        rewrite E. apply read_records_raise.
        by rewrite map_app, feed_app, Hcur; cbn [bind map feed]; rewrite Ec.
Qed.

Lemma reader_rows_scan (content : str) :
  reader_rows content = scan parse_reset false content.
Proof. unfold reader_rows, readlines. by apply (scan_readlines content []). Qed.

End CsvFacts.

Module CsvRound.
Import Csv.

(** ** Reading back what the writer wrote *)

Lemma plain_char (c : ascii) :
  needs_quotes c = false ->
  Ascii.eqb c delimiter = false /\ Ascii.eqb c quotechar = false
  /\ is_newline c = false /\ forall rest, ends_line c rest = false.
Proof.
  unfold needs_quotes, is_newline, ends_line, lineterminator. simpl.
  destruct (Ascii.eqb c delimiter), (Ascii.eqb c quotechar),
    (Ascii.eqb c CR), (Ascii.eqb c LF); simpl; try done.
Qed.

Lemma quotechar_not_line_end (rest : str) : ends_line quotechar rest = false.
Proof. done. Qed.

(** The characters of an unquoted field are added one by one. *)
Lemma scan_unquoted (f acc : str) (fs : list str) (i j : bool) (sep : ascii) (rest : str) :
  existsb needs_quotes f = false ->
  scan {| state := IN_FIELD; fields := fs; field := acc |} i (f ++ sep :: rest)
  = scan {| state := IN_FIELD; fields := fs; field := acc ++ f |} j (sep :: rest).
Proof.
  revert acc i. induction f as [|c f IH]; intros acc i Hf.
  - by rewrite app_nil_r.
  - simpl in Hf. apply orb_false_elim in Hf as [Hc Hf].
    destruct (plain_char c Hc) as (Hd & Hq & Hn & He).
    cbn [app scan]. unfold parse_process_char. cbn [state].
    rewrite Hn, Hd, He. cbn [bind]. unfold parse_add_char. cbn [state fields field].
    rewrite (IH (acc ++ [c]) true Hf). by rewrite <- app_assoc.
Qed.

Lemma double_quotes_cons (c : ascii) (f : str) :
  double_quotes (c :: f)
  = (if Ascii.eqb c quotechar then [quotechar; quotechar] else [c]) ++ double_quotes f.
Proof. done. Qed.

Lemma scan_doubled_quote (acc : str) (fs : list str) (i : bool) (s : str) :
  scan {| state := IN_QUOTED_FIELD; fields := fs; field := acc |} i
       (quotechar :: quotechar :: s)
  = scan {| state := IN_QUOTED_FIELD; fields := fs; field := acc ++ [quotechar] |}
         true s.
Proof. done. Qed.

Lemma scan_in_quotes (c : ascii) (acc : str) (fs : list str) (i : bool) (s : str) :
  Ascii.eqb c quotechar = false ->
  scan {| state := IN_QUOTED_FIELD; fields := fs; field := acc |} i (c :: s)
  = scan {| state := IN_QUOTED_FIELD; fields := fs; field := acc ++ [c] |}
         (negb (ends_line c s)) s.
Proof.
  intros Eq. cbn [scan]. unfold parse_process_char. cbn [state]. rewrite Eq.
  cbn [bind]. by destruct (ends_line c s).
Qed.

(** Inside quotes every character is added, a doubled quote as one quote,
    and line ends change nothing. *)
Lemma scan_quoted (f acc : str) (fs : list str) (i j : bool) (sep : ascii) (rest : str) :
  scan {| state := IN_QUOTED_FIELD; fields := fs; field := acc |} i
       (double_quotes f ++ quotechar :: sep :: rest)
  = scan {| state := QUOTE_IN_QUOTED_FIELD; fields := fs; field := acc ++ f |} j
         (sep :: rest).
Proof.
  revert acc i. induction f as [|c f IH]; intros acc i.
  - rewrite app_nil_r. done.
  - rewrite double_quotes_cons. destruct (Ascii.eqb c quotechar) eqn:Eq.
    + apply Ascii.eqb_eq in Eq as ->. cbn [app].
      rewrite scan_doubled_quote, IH. by rewrite <- app_assoc.
    + cbn [app]. rewrite scan_in_quotes, IH by done. by rewrite <- app_assoc.
Qed.

(** After the content of a field, the delimiter stores it. *)
Lemma scan_delimiter (st : pstate) (f : str) (fs : list str) (i : bool) (rest : str) :
  st = QUOTE_IN_QUOTED_FIELD \/ st = IN_FIELD \/ st = START_FIELD
  \/ (st = START_RECORD /\ f = []) ->
  scan {| state := st; fields := fs; field := f |} i (delimiter :: rest)
  = scan {| state := START_FIELD; fields := fs ++ [f]; field := [] |} true rest.
Proof. intros [->|[->|[->|[-> ->]]]]; done. Qed.

(** After the content of the last field, the line terminator stores it and
    completes the record. *)
Lemma scan_lineterminator (st : pstate) (f : str) (fs : list str) (i : bool) (rest : str) :
  st = QUOTE_IN_QUOTED_FIELD \/ st = IN_FIELD \/ st = START_FIELD ->
  scan {| state := st; fields := fs; field := f |} i (lineterminator ++ rest)
  = (rows <- scan parse_reset false rest ;; Ret ((fs ++ [f]) :: rows)).
Proof. intros [->|[->| ->]]; done. Qed.

(** Reading the text of one field leaves the parser with the field. *)
Lemma scan_field (st : pstate) (f : str) (fs : list str) (i j : bool) (sep : ascii) (rest : str) :
  st = START_FIELD \/ st = START_RECORD ->
  scan {| state := st; fields := fs; field := [] |} i (write_field f ++ sep :: rest)
  = scan {| state := if existsb needs_quotes f then QUOTE_IN_QUOTED_FIELD
                     else match f with [] => st | _ => IN_FIELD end;
            fields := fs; field := f |} j (sep :: rest).
Proof.
  intros Hst. unfold write_field. destruct (existsb needs_quotes f) eqn:Ef.
  - rewrite <- app_comm_cons, <- app_assoc. cbn [app].
    rewrite <- (scan_quoted f [] fs true j).
    destruct Hst as [-> | ->]; done.
  - destruct f as [|c f]; [done|].
    simpl in Ef. apply orb_false_elim in Ef as [Hc Hf].
    destruct (plain_char c Hc) as (Hd & Hq & Hn & He).
    rewrite <- (scan_unquoted f [c] fs true j) by done.
    cbn [app scan]. unfold parse_process_char, start_field.
    destruct Hst as [-> | ->]; cbn [state set_state]; by rewrite Hn, Hq, Hd, He.
Qed.

(** Reading the text of a record. *)
Lemma scan_fields (fs' : list str) (f : str) (read : list str) (st : pstate)
    (i : bool) (rest : str) :
  st = START_FIELD \/ (st = START_RECORD /\ (f <> [] \/ fs' <> [])) ->
  scan {| state := st; fields := read; field := [] |} i
       (join [delimiter] (map write_field (f :: fs')) ++ lineterminator ++ rest)
  = (rows <- scan parse_reset false rest ;; Ret ((read ++ f :: fs') :: rows)).
Proof.
  revert f read st i. induction fs' as [|g fs' IH]; intros f read st i Hst.
  - cbn [map join]. unfold lineterminator at 1. cbn [app].
    rewrite (scan_field st f read i true) by (destruct Hst as [?|[? ?]]; auto).
    apply (scan_lineterminator _ f read true rest).
    destruct (existsb needs_quotes f); [by left|].
    destruct f; [|by right; left]. right; right.
    destruct Hst as [?|[? [?|?]]]; done.
  - change (join [delimiter] (map write_field (f :: g :: fs')))
      with (write_field f ++ [delimiter] ++ join [delimiter] (map write_field (g :: fs'))).
    rewrite <- !app_assoc. cbn [app].
    rewrite (scan_field st f read i true) by (destruct Hst as [?|[? ?]]; auto).
    rewrite scan_delimiter.
    + rewrite (IH g (read ++ [f]) START_FIELD true) by (by left).
      by rewrite <- app_assoc.
    + destruct (existsb needs_quotes f); [by left|].
      destruct f; [|by right; left].
      destruct Hst as [->|[-> _]]; [by right; right; left|by right; right; right].
Qed.

Lemma scan_writerow (row : list str) (rest : str) :
  row <> [] ->
  scan parse_reset false (writerow row ++ rest)
  = (rows <- scan parse_reset false rest ;; Ret (row :: rows)).
Proof.
  intros Hne. destruct row as [|f fs']; [done|].
  destruct f as [|c f].
  - destruct fs' as [|g fs'].
    + done.
    + unfold writerow. rewrite <- app_assoc.
      apply (scan_fields (g :: fs') [] [] START_RECORD). right. split; [done|].
      by right.
  - assert (E : writerow ((c :: f) :: fs')
                = join [delimiter] (map write_field ((c :: f) :: fs')) ++ lineterminator)
      by (by destruct fs').
    rewrite E, <- app_assoc.
    apply (scan_fields fs' (c :: f) [] START_RECORD). right. split; [done|].
    by left.
Qed.

Lemma scan_written (rows : list (list str)) :
  Forall (fun row => row <> []) rows ->
  scan parse_reset false (flat_map writerow rows) = Ret rows.
Proof.
  induction 1 as [|row rows Hrow _ IH]; [done|].
  cbn [flat_map]. rewrite scan_writerow, IH; done.
Qed.

(** What the reader makes of a file that the writer wrote. *)
Lemma reader_rows_written (rows : list (list str)) :
  Forall (fun row => row <> []) rows ->
  reader_rows (flat_map writerow rows) = Ret rows.
Proof.
  intros H. unfold reader_rows, readlines.
  rewrite (CsvFacts.scan_readlines _ [] parse_reset parse_reset) by done.
  by apply scan_written.
Qed.

End CsvRound.

(** ** The written file *)

Lemma written_rows (papers : list paper) :
  flat_map (fun p => Csv.writerow (values p)) papers
  = flat_map Csv.writerow (map values papers).
Proof. induction papers as [|p ps IH]; cbn [flat_map map]; [done|]. by rewrite IH. Qed.

Lemma nonempty_rows (papers : list paper) :
  List.filter (fun row : list str => negb (bool_decide (row = []))) (map values papers)
  = map values papers.
Proof. induction papers as [|p ps IH]; cbn [map List.filter]; [done|]. by rewrite IH. Qed.

(** C8.  For every non-empty sequence of records, [save_to_csv] succeeds,
    and reading the written file back gives the header and then one row per
    record, in order, whose six fields are the fields of the record exactly:
    as rows of [csv.reader], and as the dictionaries of [csv.DictReader]
    under the six field names.  (Fields with commas, quotes or line ends are
    written in quotes and read back unchanged.) *)
Theorem C8_csv_round_trip (papers : list paper) (filename : str) (w : world) :
  papers <> [] ->
  exists content,
    save_to_csv papers filename w
    = (Ret tt, write_file filename content (write_file filename [] w))
    /\ files (save_to_csv papers filename w).2 !! filename = Some content
    /\ Csv.reader_rows content = Ret (keys :: map values papers)
    /\ Csv.DictReader content
       = Ret (map (fun p => {| Csv.items := combine keys (map Some (values p));
                               Csv.rest := None |}) papers)
    /\ length (map values papers) = length papers.
Proof.
  intros Hne. destruct papers as [|p ps]; [done|].
  exists (Csv.writerow keys ++ flat_map (fun p => Csv.writerow (values p)) (p :: ps)).
  assert (Hrows : Csv.reader_rows
                    (Csv.writerow keys
                     ++ flat_map (fun p => Csv.writerow (values p)) (p :: ps))
                  = Ret (keys :: map values (p :: ps))).
  { rewrite written_rows.
    change (Csv.writerow keys ++ flat_map Csv.writerow (map values (p :: ps)))
      with (flat_map Csv.writerow (keys :: map values (p :: ps))).
    apply CsvRound.reader_rows_written. constructor; [done|].
    apply Forall_forall. intros row Hrow.
    apply list_elem_of_In, in_map_iff in Hrow as (q & <- & _). done. }
  split; [done|]. split.
  { cbn [save_to_csv snd write_file files]. by rewrite lookup_insert_eq. }
  split; [done|]. split; [|apply length_map].
  unfold Csv.DictReader. rewrite Hrows. cbn [bind].
  rewrite nonempty_rows, map_map. f_equal.
Qed.

Lemma C8_csv_round_trip_witness :
  exists content,
    save_to_csv
      [{| PubmedID := chars "31452104"; Title := chars "Cells, tissues and organs";
          Publication_Date := chars "2021-Jan-15"; Non_academic_Authors := chars "None";
          Company_Affiliations := chars "Acme Inc, Moderna Inc";
          Corresponding_Author_Email := chars "a@b.org" |}]
      (chars "out.csv") {| files := ∅; stdout := [] |}
    = (Ret tt,
       write_file (chars "out.csv") content
         (write_file (chars "out.csv") [] {| files := ∅; stdout := [] |}))
    /\ files
         (save_to_csv
            [{| PubmedID := chars "31452104"; Title := chars "Cells, tissues and organs";
                Publication_Date := chars "2021-Jan-15";
                Non_academic_Authors := chars "None";
                Company_Affiliations := chars "Acme Inc, Moderna Inc";
                Corresponding_Author_Email := chars "a@b.org" |}]
            (chars "out.csv") {| files := ∅; stdout := [] |}).2
       !! chars "out.csv" = Some content
    /\ Csv.reader_rows content
       = Ret (keys ::
              map values
                [{| PubmedID := chars "31452104"; Title := chars "Cells, tissues and organs";
                    Publication_Date := chars "2021-Jan-15";
                    Non_academic_Authors := chars "None";
                    Company_Affiliations := chars "Acme Inc, Moderna Inc";
                    Corresponding_Author_Email := chars "a@b.org" |}])
    /\ Csv.DictReader content
       = Ret (map (fun p => {| Csv.items := combine keys (map Some (values p));
                               Csv.rest := None |})
                [{| PubmedID := chars "31452104"; Title := chars "Cells, tissues and organs";
                    Publication_Date := chars "2021-Jan-15";
                    Non_academic_Authors := chars "None";
                    Company_Affiliations := chars "Acme Inc, Moderna Inc";
                    Corresponding_Author_Email := chars "a@b.org" |}])
    /\ length
         (map values
            [{| PubmedID := chars "31452104"; Title := chars "Cells, tissues and organs";
                Publication_Date := chars "2021-Jan-15";
                Non_academic_Authors := chars "None";
                Company_Affiliations := chars "Acme Inc, Moderna Inc";
                Corresponding_Author_Email := chars "a@b.org" |}])
       = length
           [{| PubmedID := chars "31452104"; Title := chars "Cells, tissues and organs";
               Publication_Date := chars "2021-Jan-15";
               Non_academic_Authors := chars "None";
               Company_Affiliations := chars "Acme Inc, Moderna Inc";
               Corresponding_Author_Email := chars "a@b.org" |}].
Proof.
  apply (C8_csv_round_trip
           [{| PubmedID := chars "31452104"; Title := chars "Cells, tissues and organs";
               Publication_Date := chars "2021-Jan-15";
               Non_academic_Authors := chars "None";
               Company_Affiliations := chars "Acme Inc, Moderna Inc";
               Corresponding_Author_Email := chars "a@b.org" |}]
           (chars "out.csv") {| files := ∅; stdout := [] |}).
  discriminate.
Defined.

(** A title with a comma is written in quotes, and a quote inside a field is
    doubled. *)
Example writerow_escapes :
  Csv.writerow [chars "7"; chars "Cells, tissues"; Csv.quotechar :: chars "x"]
  = chars "7," ++ [Csv.quotechar] ++ chars "Cells, tissues" ++ [Csv.quotechar]
    ++ chars "," ++ [Csv.quotechar; Csv.quotechar; Csv.quotechar] ++ chars "x"
    ++ [Csv.quotechar] ++ Csv.lineterminator.
Proof. vm_compute. reflexivity. Qed.

(* ===================================================================== *)
(** * Further properties of the extraction, the run and the written file  *)
(* ===================================================================== *)

(** ** Which match the patterns take *)

Lemma contains_suffix (needle p1 p2 : str) :
  contains needle (p1 ++ p2) = false -> contains needle p2 = false.
Proof.
  intros H. destruct (contains needle p2) eqn:E; [|done].
  apply contains_spec in E as (pre & post & ->).
  exfalso. eapply (contains_false _ _ (p1 ++ pre) post); [exact H|].
  by rewrite <- app_assoc.
Qed.

(** A literal whose first character does not occur again in it cannot start
    inside a text and run over into a copy of itself. *)
Lemma startswith_inside (c : ascii) (l p rest : str) :
  ~ In c l -> startswith l (p ++ c :: rest) = true -> exists p', p = l ++ p'.
Proof.
  intros Hc. revert p. induction l as [|a l IH]; intros p H; [by exists p|].
  destruct p as [|b p]; simpl in H.
  - destruct (Ascii.eqb_spec a c) as [->|]; [|done]. exfalso. apply Hc. by left.
  - destruct (Ascii.eqb_spec a b) as [->|]; [|done].
    destruct (IH (fun Hin => Hc (or_intror Hin)) p H) as [p' ->]. by exists p'.
Qed.

Lemma literal_not_before (c : ascii) (l p rest : str) :
  ~ In c l -> p <> [] -> contains (c :: l) p = false ->
  startswith (c :: l) (p ++ (c :: l) ++ rest) = false.
Proof.
  intros Hc Hp Hno. destruct (startswith _ _) eqn:E; [|done].
  destruct p as [|b p]; [done|]. simpl in E.
  destruct (Ascii.eqb_spec c b) as [->|]; [|done].
  apply startswith_inside in E as [p' ->]; [|done].
  exfalso. eapply (contains_false _ _ [] p'); [exact Hno|]. done.
Qed.

Lemma match_at_literal_fails (l : str) (r : regex) (s : str) :
  startswith l s = false -> match_at (Cat (Lit l) r) s = None.
Proof. intros H. unfold match_at. cbn [run]. by rewrite H. Qed.

(** Positions where no match starts are passed over. *)
Lemma search_skip (r : regex) (pre s : str) :
  (forall p1 p2, pre = p1 ++ p2 -> p2 <> [] -> match_at r (p2 ++ s) = None) ->
  search r (pre ++ s) = search r s.
Proof.
  induction pre as [|c pre IH]; intros H; [done|].
  pose proof (H [] (c :: pre) eq_refl ltac:(done)) as E. cbn [app] in E.
  cbn [app search]. rewrite E.
  apply IH. intros p1 p2 -> Hp2. by apply (H (c :: p1) p2).
Qed.

Lemma findall_from_skip (r : regex) (pre s : str) :
  (forall p1 p2, pre = p1 ++ p2 -> p2 <> [] -> match_at r (p2 ++ s) = None) ->
  findall_from r 0 (pre ++ s) = findall_from r 0 s.
Proof.
  induction pre as [|c pre IH]; intros H; [done|].
  pose proof (H [] (c :: pre) eq_refl ltac:(done)) as E. cbn [app] in E.
  cbn [app findall_from]. rewrite E.
  apply IH. intros p1 p2 -> Hp2. by apply (H (c :: p1) p2).
Qed.

Lemma findall_from_over (r : regex) (u s : str) :
  findall_from r (length u) (u ++ s) = findall_from r 0 s.
Proof. induction u as [|c u IH]; [done|]. exact IH. Qed.

Lemma prefix_skipped (c : ascii) (l : str) (r : regex) (pre s : str) :
  ~ In c l -> contains (c :: l) pre = false ->
  forall p1 p2, pre = p1 ++ p2 -> p2 <> [] ->
    match_at (Cat (Lit (c :: l)) r) (p2 ++ (c :: l) ++ s) = None.
Proof.
  intros Hc Hno p1 p2 -> Hp2. apply match_at_literal_fails.
  apply literal_not_before; [done..|]. by eapply contains_suffix.
Qed.

(** A greedy repetition takes a whole run of the class when what follows
    cannot extend it and the rest of the pattern then matches. *)
Lemma rep_greedy_blocked {R} cls lo hi (m s : str) (k : str -> option R) x :
  forallb cls m = true -> lo <= length m -> within hi (length m) ->
  match s with [] => True | c :: _ => cls c = false end ->
  k s = Some x ->
  rep cls true lo hi (m ++ s) k = Some x.
Proof.
  revert lo hi. induction m as [|c m IH]; intros lo hi Hm Hlo Hhi Hs Hk.
  - simpl in Hlo. assert (lo = 0) as -> by lia.
    destruct s as [|c s]; simpl; [done|]. by rewrite Hs.
  - simpl in Hm. apply andb_prop in Hm as [Hc Hm].
    apply within_S in Hhi as [Hcr Hhi].
    cbn [app rep]. rewrite Hc, Hcr. cbn [andb].
    rewrite (IH (pred lo) (dec_bound hi)); try done. simpl in Hlo. lia.
Qed.

(** A lazy repetition stops at the first point where the rest of the
    pattern matches. *)
Lemma rep_lazy_shortest {R} cls (t s : str) (k : str -> option R) x :
  forallb cls t = true ->
  (forall t1 t2, t = t1 ++ t2 -> t2 <> [] -> k (t2 ++ s) = None) ->
  k s = Some x ->
  rep cls false 0 None (t ++ s) k = Some x.
Proof.
  induction t as [|c t IH]; intros Ht Hno Hk.
  - destruct s; simpl; by rewrite Hk.
  - simpl in Ht. apply andb_prop in Ht as [Hc Ht].
    pose proof (Hno [] (c :: t) eq_refl ltac:(done)) as E. cbn [app] in E.
    cbn [app rep]. rewrite E, Hc. cbn [andb can_repeat pred dec_bound].
    apply IH; [done| |done]. intros t1 t2 -> Ht2. by apply (Hno (c :: t1) t2).
Qed.

Lemma rep_lazy_first {R} cls (s : str) (k : str -> option R) x :
  rep cls false 0 None s k = Some x ->
  exists w rest,
    s = w ++ rest /\ forallb cls w = true /\ k rest = Some x
    /\ forall w1 w2, w = w1 ++ w2 -> w2 <> [] -> k (w2 ++ rest) = None.
Proof.
  induction s as [|c s IH]; simpl.
  - destruct (k []) eqn:E; [|done]. intros [= ->]. exists [], [].
    repeat split; try done. intros [|? ?] w2 H; [|done]. simpl in H. by subst.
  - destruct (k (c :: s)) eqn:E.
    + intros [= ->]. exists [], (c :: s). repeat split; try done.
      intros [|? ?] w2 H; [|done]. simpl in H. by subst.
    + destruct (cls c) eqn:Ec; [|done]. simpl. intros H.
      apply IH in H as (w & rest & -> & Hw & Hk & Hfirst).
      exists (c :: w), rest. simpl. rewrite Ec, Hw. repeat split; try done.
      intros [|c' w1] w2 Heq Hw2; simpl in Heq.
      * subst w2. exact E.
      * injection Heq as -> ->. by apply (Hfirst w1 w2).
Qed.


Lemma search_here (r : regex) (s : str) (mt : match_obj) :
  match_at r s = Some mt -> search r s = Some mt.
Proof. intros H. destruct s; simpl; by rewrite H. Qed.

(** The match of [l1 (r) l2] at a text that starts with [l1]. *)
Lemma match_at_wrap (l1 l2 : str) (r : regex) (s : str) :
  match_at (Cat (Lit l1) (Cat (Grp r) (Lit l2))) (l1 ++ s)
  = run r s None
      (fun _ rest =>
         if startswith l2 rest
         then Some {| group0 := take (length (l1 ++ s) - length (drop (length l2) rest))
                                     (l1 ++ s);
                      group1 := Some (take (length s - length rest) s) |}
         else None).
Proof.
  unfold match_at. cbn [run]. by rewrite startswith_app, drop_app_length.
Qed.

Lemma wrap_result (l1 l2 g post : str) :
  (if startswith l2 (l2 ++ post)
   then Some {| group0 := take (length (l1 ++ g ++ l2 ++ post)
                                - length (drop (length l2) (l2 ++ post)))
                               (l1 ++ g ++ l2 ++ post);
                group1 := Some (take (length (g ++ l2 ++ post) - length (l2 ++ post))
                                     (g ++ l2 ++ post)) |}
   else None)
  = Some {| group0 := l1 ++ g ++ l2; group1 := Some g |}.
Proof.
  rewrite startswith_app, drop_app_length, take_consumed.
  replace (l1 ++ g ++ l2 ++ post) with ((l1 ++ g ++ l2) ++ post)
    by (by rewrite <- !app_assoc).
  by rewrite take_consumed.
Qed.

Lemma match_at_lazy_wrap (l1 l2 t post : str) :
  forallb is_dot t = true ->
  (forall t1 t2, t = t1 ++ t2 -> t2 <> [] -> startswith l2 (t2 ++ l2 ++ post) = false) ->
  match_at (Cat (Lit l1) (Cat (Grp (Rep is_dot 0 None false)) (Lit l2)))
           (l1 ++ t ++ l2 ++ post)
  = Some {| group0 := l1 ++ t ++ l2; group1 := Some t |}.
Proof.
  intros Ht Hno. rewrite match_at_wrap. cbn [run].
  apply rep_lazy_shortest; [done| |apply wrap_result].
  intros t1 t2 E Ht2. by rewrite (Hno t1 t2 E Ht2).
Qed.

Lemma match_at_greedy_wrap (l1 l2 : str) cls lo hi (m post : str) :
  forallb cls m = true -> lo <= length m -> within hi (length m) ->
  match l2 ++ post with [] => True | c :: _ => cls c = false end ->
  match_at (Cat (Lit l1) (Cat (Grp (Rep cls lo hi true)) (Lit l2)))
           (l1 ++ m ++ l2 ++ post)
  = Some {| group0 := l1 ++ m ++ l2; group1 := Some m |}.
Proof.
  intros Hm Hlo Hhi Hb. rewrite match_at_wrap. cbn [run].
  apply rep_greedy_blocked; [done..|apply wrap_result].
Qed.

Lemma lazy_stops_at_first (c : ascii) (l t post : str) :
  ~ In c l -> contains (c :: l) t = false ->
  forall t1 t2, t = t1 ++ t2 -> t2 <> [] ->
    startswith (c :: l) (t2 ++ (c :: l) ++ post) = false.
Proof.
  intros Hc Hno t1 t2 -> Ht2. apply literal_not_before; [done..|].
  by eapply contains_suffix.
Qed.

(** The first well-formed element [l1 t l2] of a text is what [search]
    finds and what [findall] lists first. *)
Lemma search_first_element (c1 c2 : ascii) (l1 l2 pre t post : str) :
  ~ In c1 l1 -> ~ In c2 l2 ->
  contains (c1 :: l1) pre = false -> forallb is_dot t = true ->
  contains (c2 :: l2) t = false ->
  search (Cat (Lit (c1 :: l1)) (Cat (Grp (Rep is_dot 0 None false)) (Lit (c2 :: l2))))
         (pre ++ (c1 :: l1) ++ t ++ (c2 :: l2) ++ post)
  = Some {| group0 := (c1 :: l1) ++ t ++ (c2 :: l2); group1 := Some t |}.
Proof.
  intros H1 H2 Hpre Ht Hno. rewrite search_skip.
  - apply search_here, match_at_lazy_wrap; [done|]. by apply lazy_stops_at_first.
  - by apply prefix_skipped.
Qed.

Lemma findall_first_element (c1 c2 : ascii) (l1 l2 pre t post : str) :
  ~ In c1 l1 -> ~ In c2 l2 ->
  contains (c1 :: l1) pre = false -> forallb is_dot t = true ->
  contains (c2 :: l2) t = false ->
  findall (Cat (Lit (c1 :: l1)) (Cat (Grp (Rep is_dot 0 None false)) (Lit (c2 :: l2))))
          (pre ++ (c1 :: l1) ++ t ++ (c2 :: l2) ++ post)
  = t :: findall (Cat (Lit (c1 :: l1)) (Cat (Grp (Rep is_dot 0 None false)) (Lit (c2 :: l2))))
           post.
Proof.
  intros H1 H2 Hpre Ht Hno. unfold findall. rewrite findall_from_skip.
  - pose proof (match_at_lazy_wrap (c1 :: l1) (c2 :: l2) t post Ht
                  (lazy_stops_at_first c2 l2 t post H2 Hno)) as E.
    cbn [app] in E. cbn [app findall_from]. rewrite E. cbn [group0 group1 group default].
    unfold group. cbn [group1 default from_option id]. f_equal.
    replace (l1 ++ t ++ c2 :: l2 ++ post) with ((l1 ++ t ++ c2 :: l2) ++ post)
      by (by rewrite <- !app_assoc).
    replace (length (c1 :: l1 ++ t ++ c2 :: l2) - 1)
      with (length (l1 ++ t ++ c2 :: l2)) by (cbn [length]; lia).
    apply findall_from_over.
  - by apply prefix_skipped.
Qed.

Lemma digit_not_alpha (c : ascii) : is_digit c = true -> is_alpha c = false.
Proof. destruct c as [[] [] [] [] [] [] [] []]; vm_compute; congruence. Qed.


Lemma match_at_lazy_wrap_sound (l1 l2 s : str) (mt : match_obj) :
  l2 <> [] ->
  match_at (Cat (Lit l1) (Cat (Grp (Rep is_dot 0 None false)) (Lit l2))) s = Some mt ->
  exists t post,
    s = l1 ++ t ++ l2 ++ post
    /\ mt = {| group0 := l1 ++ t ++ l2; group1 := Some t |}
    /\ forallb is_dot t = true /\ contains l2 t = false.
Proof.
  intros Hl2 H. destruct (startswith l1 s) eqn:E1.
  - apply startswith_spec in E1 as [s' ->]. rewrite match_at_wrap in H.
    cbn [run] in H. apply rep_lazy_first in H as (t & rest & -> & Ht & Hk & Hfirst).
    assert (E2 : startswith l2 rest = true)
      by (cbv beta in Hk; by destruct (startswith l2 rest)).
    apply startswith_spec in E2 as [post ->]. cbv beta in Hk.
    rewrite wrap_result in Hk. injection Hk as <-.
    exists t, post. repeat split; try done.
    destruct (contains l2 t) eqn:Ec; [|done].
    apply contains_spec in Ec as (a1 & a3 & ->).
    specialize (Hfirst a1 (l2 ++ a3) eq_refl).
    rewrite <- app_assoc, startswith_app in Hfirst.
    discriminate Hfirst. by destruct l2.
  - by rewrite match_at_literal_fails in H.
Qed.

Lemma findall_from_matches (r : regex) (k : nat) (s g : str) :
  In g (findall_from r k s) ->
  exists pre s' mt, s = pre ++ s' /\ match_at r s' = Some mt /\ g = group mt.
Proof.
  revert k. induction s as [|c s IH]; intros k.
  - destruct k; simpl; [|done]. destruct (match_at r []) eqn:E; [|done].
    intros [<-|[]]. by exists [], [], m.
  - assert (Hs : forall k, In g (findall_from r k s) ->
               exists pre s' mt, c :: s = pre ++ s' /\ match_at r s' = Some mt
                                 /\ g = group mt).
    { intros k0 H. apply IH in H as (pre & s' & mt & -> & Hm & Hg).
      by exists (c :: pre), s', mt. }
    destruct k; simpl; [|by apply Hs].
    destruct (match_at r (c :: s)) eqn:E; [|by apply Hs].
    intros [<-|H]; [|by eapply Hs]. by exists [], (c :: s), m.
Qed.

Lemma elements_of_tag (tag : string) (text g : str) :
  In g (findall (tag_re tag) text) ->
  exists pre post,
    text = pre ++ (chars "<" ++ chars tag ++ chars ">") ++ g
           ++ (chars "</" ++ chars tag ++ chars ">") ++ post
    /\ forallb is_dot g = true
    /\ contains (chars "</" ++ chars tag ++ chars ">") g = false.
Proof.
  intros H. apply findall_from_matches in H as (pre & s' & mt & -> & Hm & ->).
  apply match_at_lazy_wrap_sound in Hm as (t & post & -> & -> & Ht & Hc); [|done].
  exists pre, post. done.
Qed.

(** X1.  For every payload the date is composed from what the three
    searches find: year-month-day when a day is found (with "Unknown" for a
    month that is not found), else year-month when a month is found whose
    text is not "Unknown", else the year alone; the year is "Unknown" when
    none is found. *)
Theorem X1_date_composition (text : str) :
  clean_publication_date text =
  let year :=
    match year_match text with Some m => group m | None => chars "Unknown" end in
  match day_match text, month_match text with
  | Some d, Some m => year ++ chars "-" ++ group m ++ chars "-" ++ group d
  | Some d, None => year ++ chars "-Unknown-" ++ group d
  | None, Some m =>
      if bool_decide (group m = chars "Unknown") then year
      else year ++ chars "-" ++ group m
  | None, None => year
  end.
Proof. apply clean_publication_date_spec. Qed.

(** X2.  What the date searches find has the shape of the pattern and
    stands between its tags in the text: a year of four digits, a month of
    letters or of one or two digits, a day of one or two digits.  And each
    search finds something whenever the text holds an element of that
    shape. *)
Theorem X2_date_components_found (text : str) :
  (forall m, year_match text = Some m ->
     length (group m) = 4 /\ forallb is_digit (group m) = true
     /\ exists pre post,
         text = pre ++ chars "<Year>" ++ group m ++ chars "</Year>" ++ post)
  /\ (forall m, month_match text = Some m ->
        ((forallb is_alpha (group m) = true /\ 1 <= length (group m))
         \/ (forallb is_digit (group m) = true /\ 1 <= length (group m) <= 2))
        /\ exists pre post,
            text = pre ++ chars "<Month>" ++ group m ++ chars "</Month>" ++ post)
  /\ (forall m, day_match text = Some m ->
        forallb is_digit (group m) = true /\ 1 <= length (group m) <= 2
        /\ exists pre post,
            text = pre ++ chars "<Day>" ++ group m ++ chars "</Day>" ++ post)
  /\ (forall pre y post,
        text = pre ++ chars "<Year>" ++ y ++ chars "</Year>" ++ post ->
        length y = 4 -> forallb is_digit y = true ->
        exists m, year_match text = Some m)
  /\ (forall pre mo post,
        text = pre ++ chars "<Month>" ++ mo ++ chars "</Month>" ++ post ->
        (forallb is_alpha mo = true /\ 1 <= length mo)
        \/ (forallb is_digit mo = true /\ 1 <= length mo <= 2) ->
        exists m, month_match text = Some m)
  /\ (forall pre d post,
        text = pre ++ chars "<Day>" ++ d ++ chars "</Day>" ++ post ->
        forallb is_digit d = true -> 1 <= length d <= 2 ->
        exists m, day_match text = Some m).
Proof.
  split; [apply year_match_spec|]. split; [apply month_match_spec|].
  split; [apply day_match_spec|]. split; [|split].
  - intros pre y post -> Hl Hd.
    replace (pre ++ chars "<Year>" ++ y ++ chars "</Year>" ++ post)
      with (pre ++ (chars "<Year>" ++ y ++ chars "</Year>") ++ post)
      by (by rewrite <- !app_assoc).
    by apply year_match_finds.
  - intros pre mo post -> H.
    replace (pre ++ chars "<Month>" ++ mo ++ chars "</Month>" ++ post)
      with (pre ++ (chars "<Month>" ++ mo ++ chars "</Month>") ++ post)
      by (by rewrite <- !app_assoc).
    by apply month_match_finds.
  - intros pre d post -> Hd Hl.
    replace (pre ++ chars "<Day>" ++ d ++ chars "</Day>" ++ post)
      with (pre ++ (chars "<Day>" ++ d ++ chars "</Day>") ++ post)
      by (by rewrite <- !app_assoc).
    by apply day_match_finds.
Qed.


Lemma rep_first_char_fails {R} cls lo (c : ascii) (s : str) (k : str -> option R) :
  cls c = false -> 1 <= lo -> rep cls true lo None (c :: s) k = None.
Proof. intros Hc Hlo. cbn [rep]. rewrite Hc. destruct lo; [lia|done]. Qed.

Lemma match_at_month (mo post : str) :
  (forallb is_alpha mo = true /\ 1 <= length mo)
  \/ (forallb is_digit mo = true /\ 1 <= length mo <= 2) ->
  match_at MONTH_RE (chars "<Month>" ++ mo ++ chars "</Month>" ++ post)
  = Some {| group0 := chars "<Month>" ++ mo ++ chars "</Month>"; group1 := Some mo |}.
Proof.
  intros H. unfold MONTH_RE. rewrite match_at_wrap. cbn [run].
  destruct H as [[Ha Hl]|[Hd Hl]].
  - rewrite (rep_greedy_blocked is_alpha 1 None mo _ _
               {| group0 := chars "<Month>" ++ mo ++ chars "</Month>"; group1 := Some mo |});
      [done|done|lia|done|done|apply wrap_result].
  - destruct mo as [|d mo]; [simpl in Hl; lia|].
    assert (Hnd : is_alpha d = false).
    { apply digit_not_alpha. simpl in Hd. by apply andb_prop in Hd as [? _]. }
    cbn [app]. rewrite rep_first_char_fails by (done || lia).
    apply (rep_greedy_blocked is_digit 1 (Some 2) (d :: mo));
      [done|simpl; lia|simpl in *; lia|done|apply (wrap_result _ _ (d :: mo))].
Qed.

(** X3.  Each component of the date is taken from the first element of
    its kind: when no opening tag of the kind occurs before a well-formed
    element, the search returns the content of that element, whatever comes
    after it (later elements of the same kind are not looked at). *)
Theorem X3_first_date_tags (pre post : str) :
  (forall y,
      contains (chars "<Year>") pre = false ->
      length y = 4 -> forallb is_digit y = true ->
      exists m,
        year_match (pre ++ chars "<Year>" ++ y ++ chars "</Year>" ++ post) = Some m
        /\ group m = y)
  /\ (forall mo,
         contains (chars "<Month>") pre = false ->
         (forallb is_alpha mo = true /\ 1 <= length mo)
         \/ (forallb is_digit mo = true /\ 1 <= length mo <= 2) ->
         exists m,
           month_match (pre ++ chars "<Month>" ++ mo ++ chars "</Month>" ++ post) = Some m
           /\ group m = mo)
  /\ (forall d,
         contains (chars "<Day>") pre = false ->
         forallb is_digit d = true -> 1 <= length d <= 2 ->
         exists m,
           day_match (pre ++ chars "<Day>" ++ d ++ chars "</Day>" ++ post) = Some m
           /\ group m = d).
Proof.
  split; [|split].
  - intros y Hpre Hl Hd. eexists. split.
    + unfold year_match, YEAR_RE. rewrite search_skip.
      * apply search_here, match_at_greedy_wrap; [done|lia|simpl; lia|done].
      * apply (prefix_skipped "<" (chars "Year>")); [|done].
        vm_compute. intuition congruence.
    + done.
  - intros mo Hpre Hmo. eexists. split.
    + unfold month_match. rewrite search_skip.
      * by apply search_here, match_at_month.
      * apply (prefix_skipped "<" (chars "Month>")); [|done].
        vm_compute. intuition congruence.
    + done.
  - intros d Hpre Hd Hl. eexists. split.
    + unfold day_match, DAY_RE. rewrite search_skip.
      * apply search_here, match_at_greedy_wrap; [done|lia|simpl; lia|done].
      * apply (prefix_skipped "<" (chars "Day>")); [|done].
        vm_compute. intuition congruence.
    + done.
Qed.

(** X4.  The title is the content of the first title element: when no
    opening title tag occurs before it, and the content has no line feed and
    no closing title tag, [title_of] returns exactly that content. *)
Theorem X4_title_is_first_element (pre t post : str) :
  contains (chars "<ArticleTitle>") pre = false ->
  forallb is_dot t = true ->
  contains (chars "</ArticleTitle>") t = false ->
  title_of (pre ++ chars "<ArticleTitle>" ++ t ++ chars "</ArticleTitle>" ++ post) = t.
Proof.
  intros Hpre Ht Hno. unfold title_of.
  change TITLE_RE with
    (Cat (Lit ("<"%char :: chars "ArticleTitle>"))
       (Cat (Grp (Rep is_dot 0 None false)) (Lit ("<"%char :: chars "/ArticleTitle>")))).
  change (chars "<ArticleTitle>") with ("<"%char :: chars "ArticleTitle>") in *.
  change (chars "</ArticleTitle>") with ("<"%char :: chars "/ArticleTitle>") in *.
  rewrite search_first_element; try done; vm_compute; intuition congruence.
Qed.

Lemma findall_elements (c1 c2 : ascii) (l1 l2 : str) (items : list (str * str))
    (tail : str) :
  ~ In c1 l1 -> ~ In c2 l2 ->
  Forall (fun it => contains (c1 :: l1) it.1 = false
                    /\ forallb is_dot it.2 = true
                    /\ contains (c2 :: l2) it.2 = false) items ->
  contains (c1 :: l1) tail = false ->
  findall (Cat (Lit (c1 :: l1)) (Cat (Grp (Rep is_dot 0 None false)) (Lit (c2 :: l2))))
          (flat_map (fun it => it.1 ++ (c1 :: l1) ++ it.2 ++ (c2 :: l2)) items ++ tail)
  = map snd items.
Proof.
  intros H1 H2 Hitems Htail. induction Hitems as [|[sep e] items (Hs & He & Hc) _ IH].
  - by apply findall_lit_absent.
  - cbn [flat_map map fst snd] in *. rewrite <- !app_assoc.
    rewrite findall_first_element by done. by rewrite IH.
Qed.

(** X5.  On a payload made of elements [<Author>name</Author>], each
    after text without an opening author tag, and followed by text without
    one, [authors_of] returns all the names, in document order (names
    without line feed and closing tag).  The same holds for the
    affiliations. *)
Theorem X5_elements_in_document_order (items : list (str * str)) (tail : str) :
  (Forall (fun it => contains (chars "<Author>") it.1 = false
                     /\ forallb is_dot it.2 = true
                     /\ contains (chars "</Author>") it.2 = false) items ->
   contains (chars "<Author>") tail = false ->
   authors_of
     (flat_map (fun it => it.1 ++ chars "<Author>" ++ it.2 ++ chars "</Author>") items
      ++ tail)
   = map snd items)
  /\ (Forall (fun it => contains (chars "<Affiliation>") it.1 = false
                        /\ forallb is_dot it.2 = true
                        /\ contains (chars "</Affiliation>") it.2 = false) items ->
      contains (chars "<Affiliation>") tail = false ->
      affiliations_of
        (flat_map (fun it => it.1 ++ chars "<Affiliation>" ++ it.2 ++ chars "</Affiliation>")
                  items ++ tail)
      = map snd items).
Proof.
  split; intros Hitems Htail.
  - unfold authors_of.
    change AUTHOR_RE with
      (Cat (Lit ("<"%char :: chars "Author>"))
         (Cat (Grp (Rep is_dot 0 None false)) (Lit ("<"%char :: chars "/Author>")))).
    change (chars "<Author>") with ("<"%char :: chars "Author>") in *.
    change (chars "</Author>") with ("<"%char :: chars "/Author>") in *.
    apply findall_elements; try done; vm_compute; intuition congruence.
  - unfold affiliations_of.
    change AFFILIATION_RE with
      (Cat (Lit ("<"%char :: chars "Affiliation>"))
         (Cat (Grp (Rep is_dot 0 None false)) (Lit ("<"%char :: chars "/Affiliation>")))).
    change (chars "<Affiliation>") with ("<"%char :: chars "Affiliation>") in *.
    change (chars "</Affiliation>") with ("<"%char :: chars "/Affiliation>") in *.
    apply findall_elements; try done; vm_compute; intuition congruence.
Qed.

Lemma search_at (r : regex) (s : str) (m : match_obj) :
  search r s = Some m -> exists pre s', s = pre ++ s' /\ match_at r s' = Some m.
Proof.
  induction s as [|c s IH]; cbn [search].
  - destruct (match_at r []) eqn:E; [|done]. intros [= <-]. by exists [], [].
  - destruct (match_at r (c :: s)) eqn:E.
    + intros [= <-]. by exists [], (c :: s).
    + intros H. destruct (IH H) as (pre & s' & -> & Hm). by exists (c :: pre), s'.
Qed.

(** X6.  Every extracted author and affiliation, and the title when it is
    not the sentinel, stands in the payload between an opening tag and a
    closing tag of its kind, has no line feed, and does not contain the
    closing tag (the lazy match stops at the first one). *)
Theorem X6_extracted_elements_come_from_text (text : str) :
  (forall a, In a (authors_of text) ->
     exists pre post,
       text = pre ++ chars "<Author>" ++ a ++ chars "</Author>" ++ post
       /\ forallb is_dot a = true /\ contains (chars "</Author>") a = false)
  /\ (forall a, In a (affiliations_of text) ->
        exists pre post,
          text = pre ++ chars "<Affiliation>" ++ a ++ chars "</Affiliation>" ++ post
          /\ forallb is_dot a = true /\ contains (chars "</Affiliation>") a = false)
  /\ (title_of text = chars "N/A"
      \/ exists pre post,
          text = pre ++ chars "<ArticleTitle>" ++ title_of text
                 ++ chars "</ArticleTitle>" ++ post
          /\ forallb is_dot (title_of text) = true
          /\ contains (chars "</ArticleTitle>") (title_of text) = false).
Proof.
  split; [|split].
  - intros a Ha. by apply (elements_of_tag "Author") in Ha.
  - intros a Ha. by apply (elements_of_tag "Affiliation") in Ha.
  - unfold title_of. destruct (search TITLE_RE text) as [m|] eqn:E; [right|by left].
    apply search_at in E as (pre & s' & -> & Hm).
    apply match_at_lazy_wrap_sound in Hm as (t & post & -> & -> & Ht & Hc); [|done].
    exists pre, post. done.
Qed.


Lemma email_matches_intro (loc dom tld : str) :
  forallb is_local loc = true -> 1 <= length loc ->
  forallb is_domain dom = true -> 1 <= length dom ->
  forallb is_alpha tld = true -> 2 <= length tld ->
  Matches EMAIL_RE (loc ++ chars "@" ++ dom ++ chars "." ++ tld) None
    (Some (loc ++ chars "@" ++ dom ++ chars "." ++ tld)).
Proof.
  intros. unfold EMAIL_RE. apply (MGrp _ _ None None).
  eapply MCat; [by apply MRep|]. eapply MCat; [apply MLit|].
  eapply MCat; [by apply MRep|]. eapply MCat; [apply MLit|]. by apply MRep.
Qed.

(** X7.  The email field is "Not found" or a part of the payload of the
    form local@domain.tld, with a non-empty local part and domain from the
    two character classes and at least two letters at the end; and it is not
    "Not found" when the payload contains a text of that form. *)
Theorem X7_email_shape (text : str) :
  (email_of text = chars "Not found"
   \/ exists pre loc dom tld post,
       text = pre ++ email_of text ++ post
       /\ email_of text = loc ++ chars "@" ++ dom ++ chars "." ++ tld
       /\ forallb is_local loc = true /\ 1 <= length loc
       /\ forallb is_domain dom = true /\ 1 <= length dom
       /\ forallb is_alpha tld = true /\ 2 <= length tld)
  /\ (forall pre loc dom tld post,
         text = pre ++ (loc ++ chars "@" ++ dom ++ chars "." ++ tld) ++ post ->
         forallb is_local loc = true -> 1 <= length loc ->
         forallb is_domain dom = true -> 1 <= length dom ->
         forallb is_alpha tld = true -> 2 <= length tld ->
         email_of text <> chars "Not found").
Proof.
  unfold email_of. split.
  - destruct (search EMAIL_RE text) as [m|] eqn:E; [right|by left].
    apply search_sound in E as (pre & post & -> & Hm).
    apply email_matches in Hm as (loc & dom & tld & Hw & H).
    exists pre, loc, dom, tld, post. done.
  - intros pre loc dom tld post -> H1 H2 H3 H4 H5 H6.
    destruct (search_finds EMAIL_RE pre _ post _
                (email_matches_intro loc dom tld H1 H2 H3 H4 H5 H6)) as [m E].
    rewrite E. apply search_sound in E as (pre' & post' & _ & Hm).
    apply email_matches in Hm as (loc' & dom' & tld' & Hw & _).
    intros Heq. rewrite Heq in Hw.
    eapply (contains_false (chars "@") (chars "Not found") loc' (dom' ++ chars "." ++ tld'));
      [done|exact Hw].
Qed.

(** ** Counting what the classifier reports *)

Lemma flagged_indices_length (k : nat) (affs : list str) :
  length (flagged_indices_from k affs) = length (List.filter is_non_academic affs).
Proof.
  revert k. induction affs as [|aff affs IH]; intros k; [done|].
  rewrite flagged_indices_cons, length_app, IH. cbn [List.filter].
  by destruct (is_non_academic aff).
Qed.

Lemma size_list_to_set_le (l : list str) :
  size (list_to_set l : gset str) <= length l.
Proof.
  induction l as [|x l IH].
  - rewrite list_to_set_nil, size_empty. done.
  - rewrite list_to_set_cons, size_union_alt, size_singleton. cbn [length].
    pose proof (subseteq_size (list_to_set l ∖ {[x]}) (list_to_set l : gset str)) as H.
    assert (list_to_set l ∖ {[x]} ⊆ (list_to_set l : gset str)) by set_solver.
    specialize (H ltac:(done)). lia.
Qed.

Lemma list_to_set_empty (l : list str) :
  (list_to_set l : gset str) = ∅ <-> l = [].
Proof.
  split; [|by intros ->]. destruct l as [|x l]; [done|].
  intros H. exfalso. assert (x ∈ (∅ : gset str)) by (rewrite <- H; set_solver).
  set_solver.
Qed.

(** X8.  The classifier reports one author (or placeholder) per flagged
    affiliation, duplicates included, so at most as many as there are
    affiliations; the set of companies is no larger than that list; the list
    is empty exactly when the set is; and every reported name is one of the
    authors or the placeholder "Unknown". *)
Theorem X8_classifier_counts (authors affiliations : list str) :
  length (classify authors affiliations).1
  = length (List.filter is_non_academic affiliations)
  /\ length (classify authors affiliations).1 <= length affiliations
  /\ size (classify authors affiliations).2 <= length (classify authors affiliations).1
  /\ ((classify authors affiliations).1 = [] <-> (classify authors affiliations).2 = ∅)
  /\ Forall (fun a => In a authors \/ a = chars "Unknown")
       (classify authors affiliations).1.
Proof.
  rewrite classify_spec. cbn [fst snd].
  rewrite length_map, <- flagged_indices_from_0, flagged_indices_length.
  split; [done|]. split; [apply List.filter_length_le|].
  split; [apply size_list_to_set_le|]. split.
  - rewrite list_to_set_empty. split.
    + intros H. apply (f_equal length) in H.
      rewrite length_map, flagged_indices_length in H.
      by destruct (List.filter is_non_academic affiliations).
    + intros H. apply (f_equal length) in H.
      assert (L : length (flagged_indices_from 0 affiliations) = 0)
        by (by rewrite flagged_indices_length, H).
      by destruct (flagged_indices_from 0 affiliations).
  - apply Forall_forall. intros a Ha.
    apply list_elem_of_In, in_map_iff in Ha as (i & <- & _).
    unfold author_at. destruct (Nat.ltb_spec i (length authors)); [left|by right].
    by apply nth_In.
Qed.


(** ** Failures and modes of the run *)



Lemma fetch_all_first_failure (rt : runtime) (ids1 ids2 : list str) (bad : str) (e : exn) :
  (forall paper_id, In paper_id ids1 -> exists p, fetch_paper_details rt paper_id = Ret p) ->
  fetch_paper_details rt bad = Raise e ->
  fetch_all rt (ids1 ++ bad :: ids2) = Raise e.
Proof.
  intros Hall Hbad. induction ids1 as [|paper_id ids1 IH]; cbn [app fetch_all].
  - by rewrite Hbad.
  - destruct (Hall paper_id) as [p Hp]; [by left|]. rewrite Hp. cbn [bind].
    rewrite IH; [done|]. intros; apply Hall; by right.
Qed.

(** X11.  When the detail request fails for an identifier, after
    successes for all identifiers before it, the run is aborted with that
    exception: [get_papers] raises it, [main] raises it, no file is touched
    (also in file mode) and nothing is printed but the debug line. *)
Theorem X11_first_failure_aborts (rt : runtime) (a : args) (w : world)
    (ids1 ids2 : list str) (bad : str) (e : exn) :
  fetch_paper_ids rt (query a) 10 = Ret (ids1 ++ bad :: ids2) ->
  (forall paper_id, In paper_id ids1 -> exists p, fetch_paper_details rt paper_id = Ret p) ->
  fetch_paper_details rt bad = Raise e ->
  get_papers rt (query a) 10 = Raise e
  /\ (main rt a w).1 = Raise e
  /\ files (main rt a w).2 = files w
  /\ stdout (main rt a w).2
     = stdout w ++ (if debug a then [chars "Fetching papers for query: " ++ query a] else []).
Proof.
  intros Hids Hall Hbad.
  assert (E : get_papers rt (query a) 10 = Raise e).
  { unfold get_papers. rewrite Hids. cbn [bind]. by apply fetch_all_first_failure. }
  split; [done|]. unfold main. rewrite E.
  destruct (debug a); cbn; by rewrite ?app_nil_r.
Qed.

(** X12.  In console mode (no file argument, or an empty one) the run
    ends normally, leaves the files as they are, and prints, after the
    debug line if asked for, one line per record in the order of the
    records. *)
Theorem X12_console_mode (rt : runtime) (a : args) (w : world) (papers : list paper) :
  get_papers rt (query a) 10 = Ret papers ->
  file a = None \/ file a = Some [] ->
  main rt a w
  = (Ret tt,
     {| files := files w;
        stdout := stdout w
                  ++ (if debug a then [chars "Fetching papers for query: " ++ query a] else [])
                  ++ map (fun p => repr rt (as_dict p)) papers |}).
Proof.
  intros Hp Hf. unfold main. rewrite Hp.
  destruct Hf as [-> | ->]; rewrite print_all_spec;
    destruct (debug a); cbn [print files stdout]; by rewrite <- ?app_assoc.
Qed.

(** X13.  In file mode with at least one record the run ends normally,
    the named file holds the written table, whatever it held before, and
    exactly one line is printed after the debug line, the confirmation that
    names the file; reading the file back gives the header and the rows of
    the records that [get_papers] returned. *)
Theorem X13_file_mode (rt : runtime) (a : args) (w : world) (papers : list paper)
    (filename : str) :
  get_papers rt (query a) 10 = Ret papers -> papers <> [] ->
  file a = Some filename -> filename <> [] ->
  exists content,
    main rt a w
    = (Ret tt,
       {| files := <[filename := content]> (files w);
          stdout := stdout w
                    ++ (if debug a then [chars "Fetching papers for query: " ++ query a] else [])
                    ++ [chars "Results saved to " ++ filename] |})
    /\ Csv.reader_rows content = Ret (keys :: map values papers).
Proof.
  intros Hp Hne Hf Hfn. destruct papers as [|p ps]; [done|].
  destruct filename as [|c fn]; [done|].
  exists (Csv.writerow keys ++ flat_map (fun p => Csv.writerow (values p)) (p :: ps)).
  split.
  - unfold main. rewrite Hp, Hf.
    destruct (debug a); cbn [save_to_csv]; unfold print, write_file;
      cbn [files stdout]; by rewrite insert_insert_eq, <- ?app_assoc, ?app_nil_r.
  - rewrite written_rows.
    change (Csv.writerow keys ++ flat_map Csv.writerow (map values (p :: ps)))
      with (flat_map Csv.writerow (keys :: map values (p :: ps))).
    apply CsvRound.reader_rows_written. constructor; [done|].
    apply Forall_forall. intros row Hrow.
    apply list_elem_of_In, in_map_iff in Hrow as (q & <- & _). done.
Qed.

(** ** The file that [save_to_csv] leaves *)

(** X14.  [save_to_csv] prints nothing and changes no file but the named
    one; what the named file holds afterwards does not depend on what the
    files held before; and for an empty list of records the named file is
    left empty (it is emptied before the failure). *)
Theorem X14_save_touches_one_file (papers : list paper) (filename : str) (w : world) :
  stdout (save_to_csv papers filename w).2 = stdout w
  /\ (forall other, other <> filename ->
        files (save_to_csv papers filename w).2 !! other = files w !! other)
  /\ (forall w',
        files (save_to_csv papers filename w).2 !! filename
        = files (save_to_csv papers filename w').2 !! filename)
  /\ (papers = [] -> files (save_to_csv papers filename w).2 !! filename = Some []).
Proof.
  destruct papers as [|p ps]; cbn [save_to_csv snd write_file files stdout].
  - split; [done|]. split; [intros; by rewrite lookup_insert_ne|].
    split; [intros; by rewrite !lookup_insert_eq|]. intros _. by rewrite lookup_insert_eq.
  - split; [done|]. split; [intros; by rewrite !lookup_insert_ne|].
    split; [intros; by rewrite !lookup_insert_eq|]. done.
Qed.

Lemma values_inj (p q : paper) : values p = values q -> p = q.
Proof. destruct p, q. unfold values. cbn. intros [= -> -> -> -> -> ->]. done. Qed.

Lemma map_values_inj (ps qs : list paper) : map values ps = map values qs -> ps = qs.
Proof.
  revert qs. induction ps as [|p ps IH]; intros [|q qs] H; try done.
  cbn [map] in H.
  assert (Hp : values p = values q) by congruence.
  assert (Hps : map values ps = map values qs) by congruence.
  by rewrite (values_inj _ _ Hp), (IH _ Hps).
Qed.

(** X15.  The written file determines the records: two calls of
    [save_to_csv] that leave the same content in their files were given the
    same list of records. *)
Theorem X15_written_file_determines_records (ps qs : list paper) (filename : str)
    (w v : world) :
  files (save_to_csv ps filename w).2 !! filename
  = files (save_to_csv qs filename v).2 !! filename ->
  ps = qs.
Proof.
  assert (Hrows : forall p ps,
             Csv.reader_rows
               (Csv.writerow keys ++ flat_map (fun p => Csv.writerow (values p)) (p :: ps))
             = Ret (keys :: map values (p :: ps))).
  { intros p ps'. rewrite written_rows.
    change (Csv.writerow keys ++ flat_map Csv.writerow (map values (p :: ps')))
      with (flat_map Csv.writerow (keys :: map values (p :: ps'))).
    apply CsvRound.reader_rows_written. constructor; [done|].
    apply Forall_forall. intros row Hrow.
    apply list_elem_of_In, in_map_iff in Hrow as (q & <- & _). done. }
  destruct ps as [|p ps], qs as [|q qs];
    cbn [save_to_csv snd write_file files]; rewrite !lookup_insert_eq; intros H.
  - done.
  - assert (H' : [] = Csv.writerow keys
                       ++ flat_map (fun p => Csv.writerow (values p)) (q :: qs))
      by congruence.
    apply (f_equal (@length ascii)) in H'. vm_compute in H'. discriminate.
  - assert (H' : Csv.writerow keys
                 ++ flat_map (fun p => Csv.writerow (values p)) (p :: ps) = [])
      by congruence.
    apply (f_equal (@length ascii)) in H'. vm_compute in H'. discriminate.
  - assert (H' : Csv.writerow keys
                 ++ flat_map (fun p => Csv.writerow (values p)) (p :: ps)
                 = Csv.writerow keys
                   ++ flat_map (fun p => Csv.writerow (values p)) (q :: qs))
      by congruence.
    pose proof (Hrows p ps) as H1. rewrite H', Hrows in H1.
    symmetry. apply map_values_inj. congruence.
Qed.


(** ** What the two derived fields show *)

Lemma contains_join (sep x : str) (items : list str) :
  In x items -> contains x (join sep items) = true.
Proof.
  induction items as [|y items IH]; [done|]. intros [->|Hin].
  - apply contains_spec. destruct items as [|z items].
    + exists [], []. by rewrite app_nil_r.
    + by exists [], (sep ++ join sep (z :: items)).
  - destruct items as [|z items]; [done|]. specialize (IH Hin).
    apply contains_spec in IH as (pre & post & E).
    apply contains_spec. exists (y ++ sep ++ pre), post.
    change (join sep (y :: z :: items)) with (y ++ sep ++ join sep (z :: items)).
    rewrite E. by rewrite <- !app_assoc.
Qed.

(** X16.  Every extracted affiliation that is flagged shows in the
    Company Affiliation(s) field of the record (as a part of its text), and
    then the Non-academic Author(s) field is the comma-separated list of the
    authors at the flagged positions, in order. *)
Theorem X16_flagged_affiliations_are_shown (rt : runtime) (paper_id text aff : str) :
  (forall s, Permutation (set_iter rt s) (elements s)) ->
  In aff (affiliations_of text) -> is_non_academic aff = true ->
  contains aff (Company_Affiliations (paper_of_text rt paper_id text)) = true
  /\ Non_academic_Authors (paper_of_text rt paper_id text)
     = join (chars ", ")
         (map (author_at (authors_of text)) (flagged_indices (affiliations_of text)))
  /\ flagged_indices (affiliations_of text) <> [].
Proof.
  intros Hperm Hin Hflag. unfold paper_of_text. rewrite classify_spec.
  cbn [Company_Affiliations Non_academic_Authors].
  set (comp := list_to_set (List.filter is_non_academic (affiliations_of text)) : gset str).
  assert (Hc : aff ∈ comp).
  { unfold comp. rewrite elem_of_list_to_set, list_elem_of_In. by apply List.filter_In. }
  assert (Hidx : flagged_indices (affiliations_of text) <> []).
  { intros E. apply (f_equal length) in E.
    rewrite <- flagged_indices_from_0, flagged_indices_length in E.
    assert (Hf : In aff (List.filter is_non_academic (affiliations_of text)))
      by (by apply List.filter_In).
    destruct (List.filter is_non_academic (affiliations_of text)); [done|discriminate]. }
  split; [|split; [|done]].
  - rewrite bool_decide_true by set_solver.
    apply contains_join. apply list_elem_of_In. rewrite (Hperm comp).
    by apply elem_of_elements.
  - by destruct (flagged_indices (affiliations_of text)).
Qed.

Lemma X16_flagged_affiliations_are_shown_witness :
  contains (chars "Moderna Inc")
    (Company_Affiliations (paper_of_text offline (chars "31452104") sample_body)) = true
  /\ Non_academic_Authors (paper_of_text offline (chars "31452104") sample_body)
     = join (chars ", ")
         (map (author_at (authors_of sample_body))
              (flagged_indices (affiliations_of sample_body)))
  /\ flagged_indices (affiliations_of sample_body) <> [].
Proof.
  apply (X16_flagged_affiliations_are_shown offline (chars "31452104") sample_body
           (chars "Moderna Inc")).
  - intros s. reflexivity.
  - left. reflexivity.
  - reflexivity.
Defined.


(** ** Instances *)

Lemma X2_date_components_found_witness :
  (length (chars "2021") = 4 /\ forallb is_digit (chars "2021") = true
   /\ exists pre post,
       chars "<Year>2021</Year><Month>Jan</Month><Day>15</Day>"
       = pre ++ chars "<Year>" ++ chars "2021" ++ chars "</Year>" ++ post)
  /\ (((forallb is_alpha (chars "Jan") = true /\ 1 <= length (chars "Jan"))
       \/ (forallb is_digit (chars "Jan") = true /\ 1 <= length (chars "Jan") <= 2))
      /\ exists pre post,
          chars "<Year>2021</Year><Month>Jan</Month><Day>15</Day>"
          = pre ++ chars "<Month>" ++ chars "Jan" ++ chars "</Month>" ++ post)
  /\ (forallb is_digit (chars "15") = true /\ 1 <= length (chars "15") <= 2
      /\ exists pre post,
          chars "<Year>2021</Year><Month>Jan</Month><Day>15</Day>"
          = pre ++ chars "<Day>" ++ chars "15" ++ chars "</Day>" ++ post)
  /\ (exists m,
         year_match (chars "<Year>2021</Year><Month>Jan</Month><Day>15</Day>") = Some m)
  /\ (exists m,
         month_match (chars "<Year>2021</Year><Month>Jan</Month><Day>15</Day>") = Some m)
  /\ (exists m,
         day_match (chars "<Year>2021</Year><Month>Jan</Month><Day>15</Day>") = Some m).
Proof.
  destruct (X2_date_components_found
              (chars "<Year>2021</Year><Month>Jan</Month><Day>15</Day>"))
    as (Hy & Hm & Hd & Hfy & Hfm & Hfd).
  split.
  { refine (Hy {| group0 := chars "<Year>2021</Year>"; group1 := Some (chars "2021") |} _).
    reflexivity. }
  split.
  { refine (Hm {| group0 := chars "<Month>Jan</Month>"; group1 := Some (chars "Jan") |} _).
    reflexivity. }
  split.
  { refine (Hd {| group0 := chars "<Day>15</Day>"; group1 := Some (chars "15") |} _).
    reflexivity. }
  split.
  { refine (Hfy [] (chars "2021") (chars "<Month>Jan</Month><Day>15</Day>") _ _ _);
      reflexivity. }
  split.
  { refine (Hfm (chars "<Year>2021</Year>") (chars "Jan") (chars "<Day>15</Day>") _ _);
      [reflexivity|]. left. split; [reflexivity|simpl; lia]. }
  refine (Hfd (chars "<Year>2021</Year><Month>Jan</Month>") (chars "15") [] _ _ _);
    [reflexivity|reflexivity|simpl; lia].
Defined.

Lemma X3_first_date_tags_witness :
  (exists m,
      year_match (chars "<PubDate>" ++ chars "<Year>" ++ chars "2021" ++ chars "</Year>"
                  ++ chars "<Year>1999</Year>") = Some m
      /\ group m = chars "2021")
  /\ (exists m,
         month_match (chars "<PubDate>" ++ chars "<Month>" ++ chars "03" ++ chars "</Month>"
                      ++ chars "<Year>1999</Year>") = Some m
         /\ group m = chars "03")
  /\ (exists m,
         day_match (chars "<PubDate>" ++ chars "<Day>" ++ chars "7" ++ chars "</Day>"
                    ++ chars "<Year>1999</Year>") = Some m
         /\ group m = chars "7").
Proof.
  destruct (X3_first_date_tags (chars "<PubDate>") (chars "<Year>1999</Year>"))
    as (Hy & Hm & Hd).
  split; [apply Hy; reflexivity|].
  split; [apply Hm; [reflexivity|right; split; [reflexivity|simpl; lia]]|].
  apply Hd; [reflexivity|reflexivity|simpl; lia].
Defined.

Lemma X4_title_is_first_element_witness :
  title_of (chars "<Article>" ++ chars "<ArticleTitle>" ++ chars "Cells, tissues"
            ++ chars "</ArticleTitle>" ++ chars "<ArticleTitle>Other</ArticleTitle>")
  = chars "Cells, tissues".
Proof.
  apply (X4_title_is_first_element (chars "<Article>") (chars "Cells, tissues")
           (chars "<ArticleTitle>Other</ArticleTitle>")); reflexivity.
Defined.

Lemma X5_elements_in_document_order_witness :
  authors_of
    (flat_map (fun it => it.1 ++ chars "<Author>" ++ it.2 ++ chars "</Author>")
       [(chars "<AuthorList>", chars "Ann Lee");
        (chars "<Affiliation>Moderna Inc</Affiliation>", chars "Bob Roe")]
     ++ chars "</AuthorList>")
  = map snd [(chars "<AuthorList>", chars "Ann Lee");
             (chars "<Affiliation>Moderna Inc</Affiliation>", chars "Bob Roe")]
  /\ affiliations_of
       (flat_map (fun it => it.1 ++ chars "<Affiliation>" ++ it.2 ++ chars "</Affiliation>")
          [(chars "<Author>Ann Lee</Author>", chars "Moderna Inc");
           (chars "<Author>Bob Roe</Author>", chars "Stanford University")]
        ++ chars "</AuthorList>")
     = map snd [(chars "<Author>Ann Lee</Author>", chars "Moderna Inc");
                (chars "<Author>Bob Roe</Author>", chars "Stanford University")].
Proof.
  split.
  - apply (proj1 (X5_elements_in_document_order
                    [(chars "<AuthorList>", chars "Ann Lee");
                     (chars "<Affiliation>Moderna Inc</Affiliation>", chars "Bob Roe")]
                    (chars "</AuthorList>"))); [|reflexivity].
    repeat constructor.
  - apply (proj2 (X5_elements_in_document_order
                    [(chars "<Author>Ann Lee</Author>", chars "Moderna Inc");
                     (chars "<Author>Bob Roe</Author>", chars "Stanford University")]
                    (chars "</AuthorList>"))); [|reflexivity].
    repeat constructor.
Defined.

Lemma X6_extracted_elements_come_from_text_witness :
  (exists pre post,
      chars "<Author>Ann Lee</Author><Affiliation>Moderna Inc</Affiliation>"
      = pre ++ chars "<Author>" ++ chars "Ann Lee" ++ chars "</Author>" ++ post
      /\ forallb is_dot (chars "Ann Lee") = true
      /\ contains (chars "</Author>") (chars "Ann Lee") = false)
  /\ (exists pre post,
         chars "<Author>Ann Lee</Author><Affiliation>Moderna Inc</Affiliation>"
         = pre ++ chars "<Affiliation>" ++ chars "Moderna Inc" ++ chars "</Affiliation>" ++ post
         /\ forallb is_dot (chars "Moderna Inc") = true
         /\ contains (chars "</Affiliation>") (chars "Moderna Inc") = false).
Proof.
  destruct (X6_extracted_elements_come_from_text
              (chars "<Author>Ann Lee</Author><Affiliation>Moderna Inc</Affiliation>"))
    as (Hau & Haf & _).
  split; [apply Hau; left; reflexivity|apply Haf; left; reflexivity].
Defined.

Lemma X7_email_shape_witness :
  email_of (chars "Contact: " ++ (chars "ann" ++ chars "@" ++ chars "moderna" ++ chars "."
                                  ++ chars "com") ++ chars " (Ann)")
  <> chars "Not found".
Proof.
  refine (proj2 (X7_email_shape _) (chars "Contact: ") (chars "ann") (chars "moderna")
            (chars "com") (chars " (Ann)") eq_refl _ _ _ _ _ _);
    (reflexivity || (simpl; lia)).
Defined.



Lemma X11_first_failure_aborts_witness :
  get_papers flaky_runtime (chars "cells") 10 = Raise HTTPError
  /\ (main flaky_runtime
        {| query := chars "cells"; debug := true; file := Some (chars "out.csv") |}
        empty_world).1 = Raise HTTPError
  /\ files (main flaky_runtime
              {| query := chars "cells"; debug := true; file := Some (chars "out.csv") |}
              empty_world).2 = files empty_world
  /\ stdout (main flaky_runtime
               {| query := chars "cells"; debug := true; file := Some (chars "out.csv") |}
               empty_world).2
     = stdout empty_world ++ [chars "Fetching papers for query: " ++ chars "cells"].
Proof.
  apply (X11_first_failure_aborts flaky_runtime
           {| query := chars "cells"; debug := true; file := Some (chars "out.csv") |}
           empty_world [chars "31452104"] [] (chars "30049270") HTTPError).
  - vm_compute. reflexivity.
  - intros paper_id [<-|[]]. eexists. vm_compute. reflexivity.
  - vm_compute. reflexivity.
Defined.

Lemma X12_console_mode_witness :
  main sample_runtime {| query := chars "cells"; debug := false; file := None |} empty_world
  = (Ret tt,
     {| files := files empty_world;
        stdout := stdout empty_world ++ []
                  ++ map (fun p => repr sample_runtime (as_dict p)) sample_papers |}).
Proof.
  apply (X12_console_mode sample_runtime
           {| query := chars "cells"; debug := false; file := None |}
           empty_world sample_papers).
  - vm_compute. reflexivity.
  - by left.
Defined.

Lemma X13_file_mode_witness :
  exists content,
    main sample_runtime
      {| query := chars "cells"; debug := false; file := Some (chars "out.csv") |}
      empty_world
    = (Ret tt,
       {| files := <[chars "out.csv" := content]> (files empty_world);
          stdout := stdout empty_world ++ []
                    ++ [chars "Results saved to " ++ chars "out.csv"] |})
    /\ Csv.reader_rows content = Ret (keys :: map values sample_papers).
Proof.
  apply (X13_file_mode sample_runtime
           {| query := chars "cells"; debug := false; file := Some (chars "out.csv") |}
           empty_world sample_papers (chars "out.csv")).
  - vm_compute. reflexivity.
  - discriminate.
  - reflexivity.
  - discriminate.
Defined.

Lemma X14_save_touches_one_file_witness :
  files (save_to_csv sample_papers (chars "out.csv")
           {| files := {[ chars "notes.txt" := chars "keep" ]}; stdout := [] |}).2
  !! chars "notes.txt" = Some (chars "keep")
  /\ files (save_to_csv [] (chars "out.csv")
              {| files := {[ chars "out.csv" := chars "old" ]}; stdout := [] |}).2
     !! chars "out.csv" = Some [].
Proof.
  split.
  - rewrite (proj1 (proj2 (X14_save_touches_one_file sample_papers (chars "out.csv")
              {| files := {[ chars "notes.txt" := chars "keep" ]}; stdout := [] |}))
              (chars "notes.txt")); [reflexivity|discriminate].
  - apply (proj2 (proj2 (proj2 (X14_save_touches_one_file [] (chars "out.csv")
              {| files := {[ chars "out.csv" := chars "old" ]}; stdout := [] |})))).
    reflexivity.
Defined.

Lemma X15_written_file_determines_records_witness :
  sample_papers = sample_papers.
Proof.
  apply (X15_written_file_determines_records sample_papers sample_papers
           (chars "out.csv") empty_world
           {| files := {[ chars "out.csv" := chars "old" ]}; stdout := [] |}).
  reflexivity.
Defined.
